(** * TXT-Novel-Formatting: the text cleaner of [clean_text.py]

    A shallow embedding of [clean_text_file]: the precompiled character
    class, the per-line body of the processing loop (substitution, strip,
    emptiness test, write), the universal-newline line reader that feeds
    it, and the derivation of the output file name with
    [os.path.splitext].

    A Python [str] is a sequence of Unicode code points; it is modelled as
    a list of code points, each an [N].  No bound is put on the code
    points, so that every statement also covers surrogates and any other
    unusual value. *)

From Stdlib Require Import String Ascii NArith ZArith List Bool Lia.
Import ListNotations.

Local Open Scope N_scope.
Local Open Scope list_scope.

(** ** Characters and strings *)

Definition char := N.
Definition str := list char.

(** ASCII literals for examples and for the constants of the source. *)
Fixpoint str_of (s : string) : str :=
  match s with
  | EmptyString => []
  | String a s' => N_of_ascii a :: str_of s'
  end.

Definition LF : char := 0x0A.
Definition CR : char := 0x0D.

Definition in_range (lo hi c : char) : bool := (lo <=? c) && (c <=? hi).

(** The whitespace test of the Python runtime ([Py_UNICODE_ISSPACE]): it is
    what [\s] matches in a [str] pattern and what [str.strip()] removes
    when called without argument. *)
Definition py_isspace (c : char) : bool :=
  in_range 0x09 0x0D c || in_range 0x1C 0x20 c
  || (c =? 0x85) || (c =? 0xA0) || (c =? 0x1680)
  || in_range 0x2000 0x200A c
  || (c =? 0x2028) || (c =? 0x2029) || (c =? 0x202F)
  || (c =? 0x205F) || (c =? 0x3000).

(** ** The compiled pattern *)

Module Re.

(** The members of a bracketed character class. *)
Inductive class_item : Type :=
| Range (lo hi : char)      (* lo-hi *)
| Lit (c : char)            (* a literal or an escaped literal *)
| Space.                    (* \s *)

(** A pattern that is one character class, negated or not. *)
Record pattern : Type := Class {
  negated : bool;
  items : list class_item
}.

Definition item_mem (c : char) (it : class_item) : bool :=
  match it with
  | Range lo hi => in_range lo hi c
  | Lit d => c =? d
  | Space => py_isspace c
  end.

Definition class_mem (its : list class_item) (c : char) : bool :=
  existsb (item_mem c) its.

(** Whether the pattern matches the one character [c]. *)
Definition matches (p : pattern) (c : char) : bool :=
  xorb (negated p) (class_mem (items p) c).

(** [pattern.sub(repl, s)]: the input is scanned from left to right; a
    class consumes exactly one character, so every matching character
    is replaced by [repl] and every other one is copied. *)
Fixpoint sub (p : pattern) (repl : str) (s : str) : str :=
  match s with
  | [] => []
  | c :: rest =>
      if matches p c then repl ++ sub p repl rest
      else c :: sub p repl rest
  end.

End Re.

(** The class of line 54, item by item and in the order of the source:
    [一-龥] [a-z] [A-Z] [0-9] [\s] , . ! ? ; : and their full-width
    forms, the escaped straight single quote, the straight double quote,
    the four curly quotes, the ideographic comma, the tilde, the four
    pairs of CJK brackets, the ellipsis, the em dash, the escaped hyphen
    and the middle dot. *)
Definition whitelist_items : list Re.class_item :=
  [ Re.Range 0x4E00 0x9FA5; Re.Range 0x61 0x7A; Re.Range 0x41 0x5A;
    Re.Range 0x30 0x39; Re.Space;
    Re.Lit 0x2C; Re.Lit 0x2E; Re.Lit 0x21; Re.Lit 0x3F; Re.Lit 0x3B;
    Re.Lit 0x3A;
    Re.Lit 0xFF0C; Re.Lit 0x3002; Re.Lit 0xFF01; Re.Lit 0xFF1F;
    Re.Lit 0xFF1B; Re.Lit 0xFF1A;
    Re.Lit 0x27; Re.Lit 0x22;
    Re.Lit 0x201C; Re.Lit 0x201D; Re.Lit 0x2018; Re.Lit 0x2019;
    Re.Lit 0x3001; Re.Lit 0x7E;
    Re.Lit 0x300A; Re.Lit 0x300B; Re.Lit 0x3008; Re.Lit 0x3009;
    Re.Lit 0x3010; Re.Lit 0x3011; Re.Lit 0x3016; Re.Lit 0x3017;
    Re.Lit 0x2026; Re.Lit 0x2014; Re.Lit 0x2D; Re.Lit 0xB7 ].

(** [pattern = re.compile(r'[^...]')] *)
Definition pattern : Re.pattern := Re.Class true whitelist_items.

(** Membership in the character whitelist of the program: the characters
    the negated class does not match. *)
Definition whitelisted (c : char) : bool := Re.class_mem whitelist_items c.

(** ** [str.strip()] *)

Fixpoint lstrip (s : str) : str :=
  match s with
  | [] => []
  | c :: rest => if py_isspace c then lstrip rest else s
  end.

Definition rstrip (s : str) : str := rev (lstrip (rev s)).

Definition strip (s : str) : str := rstrip (lstrip s).

(** ** The body of the processing loop *)

(** [cleaned_line = pattern.sub('', line)] *)
Definition cleaned_line (line : str) : str := Re.sub pattern [] line.

(** [stripped_line = cleaned_line.strip()] *)
Definition stripped_line (line : str) : str := strip (cleaned_line line).

(** The result of one iteration on [line]: the string the iteration
    writes (before the terminator is appended), or nothing when
    [if stripped_line:] is false. *)
Definition filterLine (line : str) : option str :=
  match stripped_line line with
  | [] => None
  | s => Some s
  end.

(** ** Reading and writing the files *)

(** The input file is opened in text mode with the default [newline]
    argument: [\r\n] and a lone [\r] both reach the program as [\n]. *)
Fixpoint universal_newlines (s : str) : str :=
  match s with
  | [] => []
  | c :: rest =>
      if c =? CR then
        LF :: match rest with
              | [] => []
              | d :: rest' =>
                  if d =? LF then universal_newlines rest'
                  else universal_newlines rest
              end
      else c :: universal_newlines rest
  end.

(** Iterating over a text file yields its lines, each with its [\n] kept;
    only the last one may lack it. *)
Fixpoint split_keepends (s : str) : list str :=
  match s with
  | [] => []
  | c :: rest =>
      if c =? LF then [c] :: split_keepends rest
      else match split_keepends rest with
           | [] => [[c]]
           | l :: ls => (c :: l) :: ls
           end
  end.

(** [for line in in_file], on the decoded text of the input file. *)
Definition file_lines (text : str) : list str :=
  split_keepends (universal_newlines text).

(** The output file is opened with [newline='\n']: what is written is what
    the file holds.  Its state is the text written so far. *)
Definition write (out_file : str) (s : str) : str := out_file ++ s.

(** One iteration of the loop of lines 67-75. *)
Definition loop_body (out_file : str) (line : str) : str :=
  match filterLine line with
  | Some stripped => write out_file (stripped ++ [LF])
  | None => out_file
  end.

Definition process_lines (lines : list str) (out_file : str) : str :=
  fold_left loop_body lines out_file.

(** The first pass only counts the lines for the progress bar. *)
Definition total_lines (text : str) : nat := length (file_lines text).

(** ** [os.path.splitext] *)

Local Open Scope Z_scope.

(** [p.rfind(c)] for a one-character [c]: the highest index, or [-1]. *)
Fixpoint rfind_from (p : str) (c : char) (i last : Z) : Z :=
  match p with
  | [] => last
  | x :: rest => rfind_from rest c (i + 1) (if N.eqb x c then i else last)
  end.

Definition rfind (p : str) (c : char) : Z := rfind_from p c 0 (-1).

(** Slices with non-negative bounds. *)
Definition slice_to (p : str) (j : Z) : str := firstn (Z.to_nat j) p.
Definition slice_from (p : str) (i : Z) : str := skipn (Z.to_nat i) p.
Definition slice (p : str) (i j : Z) : str := slice_to (slice_from p i) (j - i).

Fixpoint str_eqb (a b : str) : bool :=
  match a, b with
  | [], [] => true
  | x :: a', y :: b' => N.eqb x y && str_eqb a' b'
  | _, _ => false
  end.

(** The loop [while filenameIndex < dotIndex] that skips the leading
    dots of the file name; [n] is the number of iterations left, that is
    [dotIndex - filenameIndex]. *)
Fixpoint skip_leading_dots (p : str) (extsep : char)
    (dotIndex filenameIndex : Z) (n : nat) : str * str :=
  match n with
  | O => (p, slice_to p 0)
  | S n' =>
      if negb (str_eqb (slice p filenameIndex (filenameIndex + 1)) [extsep])
      then (slice_to p dotIndex, slice_from p dotIndex)
      else skip_leading_dots p extsep dotIndex (filenameIndex + 1) n'
  end.

(** [genericpath._splitext(p, sep, altsep, extsep)] *)
Definition _splitext (p : str) (sep : char) (altsep : option char)
    (extsep : char) : str * str :=
  let sepIndex := rfind p sep in
  let sepIndex :=
    match altsep with
    | Some a => Z.max sepIndex (rfind p a)
    | None => sepIndex
    end in
  let dotIndex := rfind p extsep in
  if dotIndex >? sepIndex then
    let filenameIndex := sepIndex + 1 in
    skip_leading_dots p extsep dotIndex filenameIndex
      (Z.to_nat (dotIndex - filenameIndex))
  else (p, slice_to p 0).

(** [os.path] is [posixpath] or [ntpath], by platform. *)
Inductive os_path : Type := posixpath | ntpath.

Definition sep (os : os_path) : char :=
  match os with posixpath => 0x2F%N | ntpath => 0x5C%N end.

Definition altsep (os : os_path) : option char :=
  match os with posixpath => None | ntpath => Some 0x2F%N end.

Definition extsep : char := 0x2E%N.

Definition is_sep (os : os_path) (c : char) : bool :=
  N.eqb c (sep os)
  || match altsep os with Some a => N.eqb c a | None => false end.

Definition splitext (os : os_path) (p : str) : str * str :=
  _splitext p (sep os) (altsep os) extsep.

(** ** [clean_text_file] *)

(** Lines 48-49: [f"{base_name}_cleaned{ext}"]. *)
Definition output_file_path (os : os_path) (input_file_path : str) : str :=
  let (base_name, ext) := splitext os input_file_path in
  base_name ++ str_of "_cleaned" ++ ext.

(** The function on a readable input file whose decoded text is [text]:
    the path it returns and the text it leaves in the file of that
    name. *)
Definition clean_text_file (os : os_path) (input_file_path : str)
    (text : str) : str * str :=
  let out_path := output_file_path os input_file_path in
  let out_file := process_lines (file_lines text) [] in
  (out_path, out_file).

Local Close Scope Z_scope.

(** A line as the iteration yields it: no [\n] except as its last
    character, and not empty. *)
Definition line_shape (l : str) : Prop :=
  exists body, ~ In LF body /\ (l = body ++ [LF] \/ (l = body /\ body <> [])).

(** ** The emitted lines as the specification words them *)

Fixpoint skip_absent {A : Type} (l : list (option A)) : list A :=
  match l with
  | [] => []
  | Some a :: rest => a :: skip_absent rest
  | None :: rest => skip_absent rest
  end.

(** The in-order map of the filter over the lines, absent results
    skipped. *)
Definition spec_cleaned_lines (lines : list str) : list str :=
  skip_absent (map filterLine lines).

(** A cleaned line followed by its terminator. *)
Definition terminate (t : str) : str := t ++ [LF].

(** ** The whitelist as the specification words it *)

(** The literal punctuation marks of the membership rule, in the order of
    the specification. *)
Definition spec_punctuation : list char :=
  [ 0x2C; 0x2E; 0x21; 0x3F; 0x3B; 0x3A; 0x27; 0x22;
    0x201C; 0x201D; 0x2018; 0x2019;
    0xFF0C; 0x3002; 0xFF01; 0xFF1F; 0xFF1B; 0xFF1A;
    0x3001; 0x300A; 0x300B; 0x3008; 0x3009; 0x3010; 0x3011; 0x3016; 0x3017;
    0x2026; 0x2014; 0x2D; 0xB7 ].

Definition spec_whitelist (c : char) : Prop :=
  0x4E00 <= c <= 0x9FA5
  \/ (0x41 <= c <= 0x5A \/ 0x61 <= c <= 0x7A)
  \/ 0x30 <= c <= 0x39
  \/ py_isspace c = true
  \/ In c spec_punctuation.

Definition tilde : char := 0x7E.

(** The whitelist of the specification together with the tilde. *)
Definition listed_or_tilde (c : char) : Prop := spec_whitelist c \/ c = tilde.

(** [spec_kept W s r]: [r] is the subsequence of the characters of [s]
    that belong to [W], in the order they have in [s]. *)
Inductive spec_kept (W : char -> Prop) : str -> str -> Prop :=
| kept_nil : spec_kept W [] []
| kept_keep (c : char) (s r : str) :
    W c -> spec_kept W s r -> spec_kept W (c :: s) (c :: r)
| kept_drop (c : char) (s r : str) :
    ~ W c -> spec_kept W s r -> spec_kept W (c :: s) r.

(** ** Vocabulary for the further properties *)

(** The index of the last separator of a path, computed as [_splitext]
    does. *)
Definition sepIndex_of (os : os_path) (p : str) : Z :=
  match altsep os with
  | Some a => Z.max (rfind p (sep os)) (rfind p a)
  | None => rfind p (sep os)
  end.

(** A directory part: nothing, or a path that ends with a separator. *)
Definition dir_part (os : os_path) (dir : str) : Prop :=
  dir = [] \/ exists d s, dir = d ++ [s] /\ is_sep os s = true.

(** A path component: no separator in it. *)
Definition component (os : os_path) (name : str) : Prop :=
  Forall (fun x => is_sep os x = false) name.

Definition all_dots_of (e : char) (s : str) : Prop :=
  Forall (fun x => x = e) s.

Definition all_dots (s : str) : Prop := all_dots_of extsep s.

(** Whitespace-only strings, and strings with no character that a line
    can keep. *)
Definition all_space (s : str) : Prop :=
  Forall (fun c => py_isspace c = true) s.

Definition nothing_to_keep (s : str) : Prop :=
  Forall (fun c => py_isspace c = true \/ whitelisted c = false) s.

(** A string that neither begins nor ends with whitespace, and is not
    empty. *)
Definition trimmed (t : str) : Prop :=
  (exists a m, t = a :: m /\ py_isspace a = false)
  /\ (exists m z, t = m ++ [z] /\ py_isspace z = false).

(** Code points that UTF-8 cannot encode. *)
Definition surrogate (c : char) : Prop := 0xD800 <= c <= 0xDFFF.

(** * Properties *)

(** ** The character class *)

Lemma whitelisted_spec (c : char) :
  whitelisted c = true <-> spec_whitelist c \/ c = tilde.
Proof.
  unfold whitelisted, Re.class_mem, whitelist_items, spec_whitelist,
    spec_punctuation, tilde.
  cbn [existsb Re.item_mem In]. unfold in_range.
  rewrite ?orb_true_iff, ?andb_true_iff, ?N.leb_le, ?N.eqb_eq.
  destruct (py_isspace c); split; intro H.
  - left; do 3 right; left; reflexivity.
  - do 4 right; left; reflexivity.
  - decompose [or and] H; try discriminate; try lia; subst c; auto 40.
  - lia.
Qed.

Lemma tilde_unlisted : ~ spec_whitelist tilde.
Proof.
  unfold spec_whitelist, spec_punctuation, tilde; cbn [In].
  intro H; decompose [or and] H; try discriminate; lia.
Qed.

Lemma tilde_passes : filterLine [tilde] = Some [tilde].
Proof. reflexivity. Qed.

Lemma whitelisted_listed (c : char) :
  whitelisted c = true <-> listed_or_tilde c.
Proof. apply whitelisted_spec. Qed.

Lemma unlisted_not_whitelisted (c : char) :
  ~ listed_or_tilde c <-> whitelisted c = false.
Proof.
  rewrite <- whitelisted_listed. destruct (whitelisted c); split;
    intro H; try reflexivity; try discriminate; try congruence.
Qed.

(** C1 (as stated, refuted): the class retains the tilde, which is none
    of the characters the membership rule lists. *)
Lemma tilde_retained_but_unlisted :
  cleaned_line [tilde] = [tilde] /\ ~ spec_whitelist tilde.
Proof.
  split; [reflexivity|].
  unfold spec_whitelist, spec_punctuation, tilde; cbn [In].
  intro H; decompose [or and] H; try discriminate; lia.
Qed.

(** ** Substitution by the empty string *)

Lemma sub_empty_filter (p : Re.pattern) (s : str) :
  Re.sub p [] s = filter (fun c => negb (Re.matches p c)) s.
Proof.
  induction s as [|c rest IH]; cbn [Re.sub filter]; [reflexivity|].
  destruct (Re.matches p c); cbn [negb app]; now rewrite IH.
Qed.

Lemma matches_pattern (c : char) :
  Re.matches pattern c = negb (whitelisted c).
Proof. reflexivity. Qed.

Lemma cleaned_line_filter (s : str) :
  cleaned_line s = filter whitelisted s.
Proof.
  unfold cleaned_line. rewrite sub_empty_filter.
  apply filter_ext. intro c. rewrite matches_pattern. apply negb_involutive.
Qed.

Lemma cleaned_line_In (s : str) (c : char) :
  In c (cleaned_line s) <-> In c s /\ whitelisted c = true.
Proof. rewrite cleaned_line_filter. apply filter_In. Qed.

Lemma cleaned_line_fixed (s : str) :
  Forall (fun c => whitelisted c = true) s -> cleaned_line s = s.
Proof.
  intro H. rewrite cleaned_line_filter. apply forallb_filter_id.
  apply forallb_forall. now apply Forall_forall.
Qed.

(** C1 (amended): a single character goes through the removal pass
    unchanged exactly when it is in U+4E00-U+9FA5, an ASCII letter or
    digit, a whitespace character in the sense of [\s], one of the listed
    punctuation marks, or the tilde; any other character is deleted. *)
Theorem whitelist_membership (c : char) :
  (cleaned_line [c] = [c] <-> spec_whitelist c \/ c = tilde)
  /\ (cleaned_line [c] = [] <-> ~ (spec_whitelist c \/ c = tilde)).
Proof.
  rewrite <- whitelisted_spec, cleaned_line_filter. cbn [filter].
  destruct (whitelisted c); split; split; intro H;
    try reflexivity; try discriminate; congruence.
Qed.

(** C6 (as stated, refuted): on the line made of one tilde the removal
    pass does not yield the subsequence of the characters that the
    membership rule lists, which is empty. *)
Lemma tilde_not_in_listed_subsequence :
  spec_kept spec_whitelist [tilde] []
  /\ ~ spec_kept spec_whitelist [tilde] (cleaned_line [tilde]).
Proof.
  split.
  - apply kept_drop; [exact tilde_unlisted | constructor].
  - change (cleaned_line [tilde]) with [tilde]. intro H.
    inversion H as [| c s r Hw _ | c s r _ Hk]; subst.
    + now apply tilde_unlisted.
    + inversion Hk.
Qed.

(** C6 (amended): the removal pass never reorders characters; its result
    is the subsequence, in the order of the line, of the characters that
    the membership rule lists or that are the tilde, and nothing else is
    that subsequence. *)
Theorem removal_is_ordered_subsequence (s r : str) :
  spec_kept listed_or_tilde s r <-> r = cleaned_line s.
Proof.
  split.
  - induction 1 as [|c s r Hw _ IH|c s r Hw _ IH];
      rewrite cleaned_line_filter in *; cbn [filter].
    + reflexivity.
    + apply whitelisted_listed in Hw. rewrite Hw. now f_equal.
    + apply unlisted_not_whitelisted in Hw. now rewrite Hw.
  - intros ->. induction s as [|c s IH]; [constructor|].
    rewrite cleaned_line_filter in *. cbn [filter].
    destruct (whitelisted c) eqn:E.
    + apply kept_keep; [now apply whitelisted_listed | exact IH].
    + apply kept_drop; [now apply unlisted_not_whitelisted | exact IH].
Qed.

(** ** Stripping *)

Lemma lstrip_idem (s : str) : lstrip (lstrip s) = lstrip s.
Proof.
  induction s as [|c rest IH]; [reflexivity|].
  cbn [lstrip]. destruct (py_isspace c) eqn:E; [exact IH|].
  cbn [lstrip]. now rewrite E.
Qed.

Lemma lstrip_suffix (s : str) :
  exists pre, s = pre ++ lstrip s /\ Forall (fun c => py_isspace c = true) pre.
Proof.
  induction s as [|c rest (pre & Hs & Hpre)].
  - exists []. now split.
  - cbn [lstrip]. destruct (py_isspace c) eqn:E.
    + exists (c :: pre). split; [cbn; now f_equal | now constructor].
    + exists []. now split.
Qed.

Lemma lstrip_all_space (s : str) :
  Forall (fun c => py_isspace c = true) s -> lstrip s = [].
Proof.
  induction 1 as [|c rest Hc _ IH]; [reflexivity|].
  cbn [lstrip]. now rewrite Hc.
Qed.

Lemma lstrip_fixed_prefix (t post : str) :
  t <> [] -> lstrip (t ++ post) = t ++ post -> lstrip t = t.
Proof.
  destruct t as [|c r]; [congruence|]. intros _.
  cbn [app lstrip]. destruct (py_isspace c); [|reflexivity].
  intro H. destruct (lstrip_suffix (r ++ post)) as (pre & Hs & _).
  apply (f_equal (@length _)) in Hs. rewrite H in Hs.
  rewrite !length_app in Hs. cbn [length] in Hs. rewrite ?length_app in Hs. lia.
Qed.

Lemma rstrip_prefix (s : str) :
  exists post, s = rstrip s ++ post
               /\ Forall (fun c => py_isspace c = true) post.
Proof.
  unfold rstrip. destruct (lstrip_suffix (rev s)) as (pre & Hs & Hpre).
  exists (rev pre). split.
  - rewrite <- rev_app_distr, <- Hs. symmetry. apply rev_involutive.
  - apply Forall_rev. exact Hpre.
Qed.

Lemma rstrip_idem (s : str) : rstrip (rstrip s) = rstrip s.
Proof. unfold rstrip. now rewrite rev_involutive, lstrip_idem. Qed.

Lemma rstrip_snoc_space (s : str) (c : char) :
  py_isspace c = true -> rstrip (s ++ [c]) = rstrip s.
Proof.
  intro Hc. unfold rstrip. rewrite rev_app_distr. cbn [rev app lstrip].
  now rewrite Hc.
Qed.

Lemma strip_incl (s : str) (c : char) : In c (strip s) -> In c s.
Proof.
  unfold strip. intro H.
  destruct (lstrip_suffix s) as (pre & Hs & _).
  destruct (rstrip_prefix (lstrip s)) as (post & Ht & _).
  rewrite Hs, Ht. apply in_or_app. right. apply in_or_app. now left.
Qed.

Lemma strip_idem (s : str) : strip (strip s) = strip s.
Proof.
  unfold strip.
  destruct (rstrip_prefix (lstrip s)) as (post & Ht & _).
  assert (Hl : lstrip (rstrip (lstrip s)) = rstrip (lstrip s)).
  { destruct (rstrip (lstrip s)) as [|c r] eqn:E; [reflexivity|].
    apply lstrip_fixed_prefix with (post := post); [discriminate|].
    rewrite <- Ht. apply lstrip_idem. }
  rewrite Hl. apply rstrip_idem.
Qed.

Lemma strip_all_space (s : str) :
  Forall (fun c => py_isspace c = true) s -> strip s = [].
Proof. intro H. unfold strip. now rewrite (lstrip_all_space s H). Qed.

Lemma strip_snoc_space (s : str) (c : char) :
  py_isspace c = true -> strip (s ++ [c]) = strip s.
Proof.
  intro Hc. unfold strip.
  destruct (lstrip_suffix s) as (pre & Hs & Hpre).
  destruct (lstrip s) as [|d r] eqn:E.
  - rewrite app_nil_r in Hs. subst pre.
    rewrite lstrip_all_space; [reflexivity|].
    apply Forall_app. split; [exact Hpre | now constructor].
  - assert (Hd : py_isspace d = false).
    { pose proof (lstrip_idem s) as Hi. rewrite E in Hi. cbn [lstrip] in Hi.
      destruct (py_isspace d); [|reflexivity].
      destruct (lstrip_suffix r) as (p & Hr & _).
      apply (f_equal (@length _)) in Hr. rewrite Hi in Hr.
      rewrite !length_app in Hr. cbn [length] in Hr. lia. }
    assert (Hx : lstrip (s ++ [c]) = (d :: r) ++ [c]).
    { rewrite Hs at 1. rewrite <- app_assoc.
      clear Hs. induction Hpre as [|x pre Hx _ IH].
      - cbn [app lstrip]. now rewrite Hd.
      - cbn [app lstrip]. rewrite Hx. exact IH. }
    rewrite Hx. now apply rstrip_snoc_space.
Qed.

(** ** The line filter *)

Lemma filterLine_Some (s t : str) :
  filterLine s = Some t <-> stripped_line s = t /\ t <> [].
Proof.
  unfold filterLine. destruct (stripped_line s) as [|c r]; split.
  - discriminate.
  - intros [<- H]. now elim H.
  - intros [= <-]. split; [reflexivity | discriminate].
  - now intros [<- _].
Qed.

Lemma filterLine_None (s : str) :
  filterLine s = None <-> stripped_line s = [].
Proof.
  unfold filterLine. destruct (stripped_line s); split;
    (reflexivity || discriminate).
Qed.

Lemma stripped_line_whitelisted (s : str) :
  Forall (fun c => whitelisted c = true) (stripped_line s).
Proof.
  apply Forall_forall. intros c Hc. unfold stripped_line in Hc.
  apply strip_incl, cleaned_line_In in Hc. apply Hc.
Qed.

Lemma stripped_line_idem (s : str) :
  stripped_line (stripped_line s) = stripped_line s.
Proof.
  unfold stripped_line at 1.
  rewrite (cleaned_line_fixed _ (stripped_line_whitelisted s)).
  unfold stripped_line. apply strip_idem.
Qed.

(** C2 (as stated, refuted): the line made of one tilde holds no
    whitespace and no character that the membership rule lists, and it is
    not suppressed. *)
Lemma tilde_line_not_suppressed :
  Forall (fun c => py_isspace c = true \/ ~ spec_whitelist c) [tilde]
  /\ filterLine [tilde] <> None.
Proof.
  split.
  - constructor; [right; exact tilde_unlisted | constructor].
  - rewrite tilde_passes. discriminate.
Qed.

(** C2 (amended): a line made only of whitespace and of characters that
    the membership rule does not list and that are not the tilde is
    suppressed. *)
Theorem blank_suppression (s : str) :
  Forall (fun c => py_isspace c = true \/ ~ listed_or_tilde c) s ->
  filterLine s = None.
Proof.
  intro H. apply filterLine_None. unfold stripped_line.
  apply strip_all_space, Forall_forall. intros c Hc.
  apply cleaned_line_In in Hc. destruct Hc as [Hin Hw].
  rewrite Forall_forall in H. destruct (H c Hin) as [Hs|Hn]; [exact Hs|].
  apply unlisted_not_whitelisted in Hn. congruence.
Qed.

Lemma blank_suppression_witness :
  Forall (fun c => py_isspace c = true \/ ~ listed_or_tilde c)
    [0x20; 0x40; 0x09; 0x1F600; 0x3000; 0x0A]
  /\ filterLine [0x20; 0x40; 0x09; 0x1F600; 0x3000; 0x0A] = None.
Proof.
  assert (H : Forall (fun c => py_isspace c = true \/ ~ listed_or_tilde c)
                [0x20; 0x40; 0x09; 0x1F600; 0x3000; 0x0A]).
  { repeat (apply Forall_cons;
            [(left; reflexivity)
             || (right; apply unlisted_not_whitelisted; reflexivity)|]).
    apply Forall_nil. }
  split; [exact H | exact (blank_suppression _ H)].
Defined.

(** C3: a line that the filter lets through is left unchanged by a second
    application of the filter. *)
Theorem filterLine_idempotent (s t : str) :
  filterLine s = Some t -> filterLine t = Some t.
Proof.
  intro H. apply filterLine_Some in H. destruct H as [<- Hne].
  apply filterLine_Some. split; [apply stripped_line_idem | exact Hne].
Qed.

Lemma filterLine_idempotent_witness :
  filterLine (str_of "  a@b c# ") = Some (str_of "ab c")
  /\ filterLine (str_of "ab c") = Some (str_of "ab c").
Proof.
  assert (H : filterLine (str_of "  a@b c# ") = Some (str_of "ab c"))
    by reflexivity.
  split; [exact H | exact (filterLine_idempotent _ _ H)].
Defined.

(** C4 (as stated, refuted): the line made of one tilde goes through the
    filter, and its result holds a character that the membership rule
    does not list. *)
Lemma tilde_result_unlisted :
  filterLine [tilde] = Some [tilde] /\ ~ Forall spec_whitelist [tilde].
Proof.
  split; [exact tilde_passes|].
  intro H. inversion H as [|? ? Hw _]. now apply tilde_unlisted.
Qed.

(** C4 (amended): what the filter lets through holds only characters that
    the membership rule lists or that are the tilde, and is not the empty
    string. *)
Theorem whitelist_closure (s t : str) :
  filterLine s = Some t ->
  Forall listed_or_tilde t /\ t <> [].
Proof.
  intro H. apply filterLine_Some in H. destruct H as [<- Hne].
  split; [|exact Hne].
  eapply Forall_impl; [|apply stripped_line_whitelisted].
  intros c Hc. now apply whitelisted_listed.
Qed.

Lemma whitelist_closure_witness :
  filterLine (str_of "emoji " ++ [0x1F600] ++ str_of " test" ++ [LF])
  = Some (str_of "emoji  test")
  /\ Forall listed_or_tilde (str_of "emoji  test")
  /\ str_of "emoji  test" <> [].
Proof.
  assert (H : filterLine (str_of "emoji " ++ [0x1F600] ++ str_of " test"
                          ++ [LF]) = Some (str_of "emoji  test"))
    by reflexivity.
  split; [exact H | exact (whitelist_closure _ _ H)].
Defined.

(** C9: on every sequence of code points, whatever they are, the filter
    yields a result, which is either nothing or a non-empty string no
    longer than the line. *)
Theorem filterLine_total (s : str) :
  exists r, filterLine s = r
            /\ (r = None
                \/ exists t, r = Some t /\ t <> []
                             /\ (length t <= length s)%nat).
Proof.
  exists (filterLine s). split; [reflexivity|].
  destruct (filterLine s) as [t|] eqn:E; [right | now left].
  exists t. apply filterLine_Some in E. destruct E as [E Hne].
  repeat split; [exact Hne|]. subst t. unfold stripped_line, strip.
  destruct (rstrip_prefix (lstrip (cleaned_line s))) as (post & Hp & _).
  destruct (lstrip_suffix (cleaned_line s)) as (pre & Hs & _).
  assert (Hl : (length (cleaned_line s) <= length s)%nat).
  { rewrite cleaned_line_filter. apply filter_length_le. }
  apply (f_equal (@length _)) in Hp, Hs.
  rewrite length_app in Hp, Hs. lia.
Qed.

(** ** The input lines *)

Lemma universal_newlines_no_CR_upto (n : nat) (s : str) :
  (length s <= n)%nat -> ~ In CR (universal_newlines s).
Proof.
  revert s. induction n as [|n IH]; intros [|c rest] Hlen; cbn [length] in Hlen;
    try (intros []); try lia.
  cbn [universal_newlines]. destruct (N.eqb_spec c CR) as [->|Hc].
  - intros [H|H]; [discriminate|].
    destruct rest as [|d rest']; [exact H|].
    cbn [length] in Hlen.
    destruct (d =? LF); revert H; apply IH; cbn [length]; lia.
  - intros [H|H]; [congruence|]. revert H. apply IH. lia.
Qed.

Lemma universal_newlines_no_CR (s : str) : ~ In CR (universal_newlines s).
Proof. apply (universal_newlines_no_CR_upto (length s)). lia. Qed.

Lemma split_keepends_shape (s : str) : Forall line_shape (split_keepends s).
Proof.
  induction s as [|c rest IH]; [constructor|].
  cbn [split_keepends]. destruct (N.eqb_spec c LF) as [->|Hc].
  - constructor; [|exact IH]. exists []. split; [intros []|now left].
  - destruct (split_keepends rest) as [|l ls].
    + constructor; [|constructor]. exists [c]. split.
      * intros [H|[]]. congruence.
      * right. split; [reflexivity | discriminate].
    + inversion IH as [|? ? (body & Hb & Hl) Hls]; subst.
      constructor; [|exact Hls]. exists (c :: body). split.
      * intros [H|H]; [congruence | now apply Hb].
      * destruct Hl as [->|[-> _]]; [now left | right].
        split; [reflexivity | discriminate].
Qed.

Lemma split_keepends_concat (s : str) : concat (split_keepends s) = s.
Proof.
  induction s as [|c rest IH]; [reflexivity|].
  cbn [split_keepends]. destruct (c =? LF).
  - cbn [concat app]. now rewrite IH.
  - destruct (split_keepends rest) as [|l ls]; cbn [concat app] in *;
      now rewrite <- IH.
Qed.

Lemma file_lines_shape (text : str) (l : str) :
  In l (file_lines text) -> line_shape l /\ ~ In CR l.
Proof.
  unfold file_lines. intro Hl. split.
  - pose proof (split_keepends_shape (universal_newlines text)) as H.
    rewrite Forall_forall in H. now apply H.
  - intro Hc. apply (universal_newlines_no_CR text).
    rewrite <- split_keepends_concat. apply in_concat. now exists l.
Qed.

Lemma whitelisted_LF : whitelisted LF = true.
Proof. reflexivity. Qed.

Lemma stripped_line_incl (l : str) (c : char) :
  In c (stripped_line l) -> In c l.
Proof.
  unfold stripped_line. intro H.
  apply strip_incl, cleaned_line_In in H. apply H.
Qed.

Lemma stripped_line_no_LF (l : str) :
  line_shape l -> ~ In LF (stripped_line l).
Proof.
  intros (body & Hb & [->| [-> _]]) H.
  - unfold stripped_line in H.
    rewrite cleaned_line_filter, filter_app in H. cbn [filter] in H.
    rewrite whitelisted_LF, strip_snoc_space in H by reflexivity.
    apply strip_incl, filter_In in H. now apply Hb.
  - now apply stripped_line_incl in H.
Qed.

(** ** The processing loop *)

Lemma process_lines_app (lines : list str) (out_file : str) :
  process_lines lines out_file
  = out_file ++ concat (map terminate (spec_cleaned_lines lines)).
Proof.
  unfold process_lines, spec_cleaned_lines.
  revert out_file. induction lines as [|l lines IH]; intro out_file.
  - cbn. now rewrite app_nil_r.
  - cbn [fold_left map skip_absent]. rewrite IH. unfold loop_body, write.
    destruct (filterLine l) as [t|]; [|reflexivity].
    cbn [skip_absent map concat]. now rewrite <- app_assoc.
Qed.

Lemma spec_cleaned_lines_In (lines : list str) (t : str) :
  In t (spec_cleaned_lines lines) <->
  exists l, In l lines /\ filterLine l = Some t.
Proof.
  unfold spec_cleaned_lines.
  induction lines as [|l lines IH]; cbn [map skip_absent In].
  - split; [intros [] | intros (l & [] & _)].
  - destruct (filterLine l) as [u|] eqn:E; cbn [In]; rewrite ?IH; split.
    + intros [<-|(l' & Hin & Hf)]; [exists l | exists l']; auto.
    + intros (l' & [<-|Hin] & Hf); [left; congruence | right; now exists l'].
    + intros (l' & Hin & Hf). exists l'. auto.
    + intros (l' & [<-|Hin] & Hf); [congruence | now exists l'].
Qed.

Lemma cleaned_file_lines (text : str) :
  Forall (fun t => t <> [] /\ ~ In LF t /\ ~ In CR t)
    (spec_cleaned_lines (file_lines text)).
Proof.
  apply Forall_forall. intros t Ht.
  apply spec_cleaned_lines_In in Ht. destruct Ht as (l & Hin & Hf).
  apply filterLine_Some in Hf. destruct Hf as [<- Hne].
  apply file_lines_shape in Hin. destruct Hin as [Hsh Hcr].
  repeat split; [exact Hne | now apply stripped_line_no_LF |].
  intro H. now apply Hcr, stripped_line_incl.
Qed.

Lemma split_keepends_terminated (t rest : str) :
  ~ In LF t ->
  split_keepends (terminate t ++ rest) = terminate t :: split_keepends rest.
Proof.
  unfold terminate. induction t as [|c t IH]; intro Hn.
  - reflexivity.
  - cbn [app split_keepends]. destruct (N.eqb_spec c LF) as [->|_].
    + elim Hn. now left.
    + cbn [app] in IH. rewrite IH; [reflexivity|].
      intro H. apply Hn. now right.
Qed.

Lemma split_keepends_terminated_all (ls : list str) :
  Forall (fun t => ~ In LF t) ls ->
  split_keepends (concat (map terminate ls)) = map terminate ls.
Proof.
  induction 1 as [|t ls Ht _ IH]; [reflexivity|].
  cbn [map concat]. now rewrite split_keepends_terminated, IH.
Qed.

(** C5: the loop appends to the output file, in the order of the input
    lines, the filtered form of each line that is not suppressed, each
    followed by its terminator; read back line by line, the output file
    of an input text is the in-order map of the filter over the lines of
    that text, absent results skipped. *)
Theorem order_preservation :
  (forall lines out_file,
      process_lines lines out_file
      = out_file ++ concat (map terminate (spec_cleaned_lines lines)))
  /\ (forall os path text,
         split_keepends (snd (clean_text_file os path text))
         = map terminate (spec_cleaned_lines (file_lines text))).
Proof.
  split.
  - intros lines. unfold process_lines, spec_cleaned_lines.
    induction lines as [|l lines IH]; intro out_file.
    + cbn. now rewrite app_nil_r.
    + cbn [fold_left map skip_absent]. rewrite IH. unfold loop_body, write.
      destruct (filterLine l) as [t|]; [|reflexivity].
      cbn [skip_absent map concat]. now rewrite <- app_assoc.
  - intros os path text. unfold clean_text_file. cbn [snd].
    rewrite process_lines_app. cbn [app].
    apply split_keepends_terminated_all.
    eapply Forall_impl; [|apply cleaned_file_lines].
    cbn. intros t H. apply H.
Qed.

(** C8: whatever line terminators the input text uses, the output file is
    a sequence of non-empty lines, none of which holds a [\n] or a [\r],
    each followed by the single character [\n]. *)
Theorem output_terminator (os : os_path) (path text : str) :
  exists ls,
    snd (clean_text_file os path text) = concat (map (fun t => t ++ [LF]) ls)
    /\ Forall (fun t => t <> [] /\ ~ In LF t /\ ~ In CR t) ls
    /\ ~ In CR (snd (clean_text_file os path text)).
Proof.
  exists (spec_cleaned_lines (file_lines text)).
  pose proof (cleaned_file_lines text) as Hls.
  assert (Hout : snd (clean_text_file os path text)
                 = concat (map (fun t => t ++ [LF])
                             (spec_cleaned_lines (file_lines text)))).
  { unfold clean_text_file. cbn [snd]. now rewrite process_lines_app. }
  repeat split; [exact Hout | exact Hls |].
  rewrite Hout. intro H. apply in_concat in H. destruct H as (l & Hl & Hc).
  apply in_map_iff in Hl. destruct Hl as (t & <- & Ht).
  rewrite Forall_forall in Hls. destruct (Hls t Ht) as (_ & _ & Hcr).
  apply in_app_or in Hc. destruct Hc as [Hc|[Hc|[]]];
    [now apply Hcr | discriminate].
Qed.

(** The three terminator conventions: a text whose lines all end the same
    way is read as the same lines. *)
Lemma universal_newlines_CR (rest : str) :
  hd_error rest <> Some LF ->
  universal_newlines (CR :: rest) = LF :: universal_newlines rest.
Proof.
  intro H. cbn [universal_newlines]. change (CR =? CR) with true. cbn iota.
  destruct rest as [|d rest']; [reflexivity|].
  destruct (N.eqb_spec d LF) as [->|_]; [now elim H | reflexivity].
Qed.

Lemma same_lines_any_convention (term : str) (bodies : list str) :
  term = [LF] \/ term = [CR; LF] \/ term = [CR] ->
  Forall (fun b => ~ In LF b /\ ~ In CR b) bodies ->
  file_lines (concat (map (fun b => b ++ term) bodies))
  = map terminate bodies.
Proof.
  intros Hterm Hb. unfold file_lines.
  assert (Hu : universal_newlines (concat (map (fun b => b ++ term) bodies))
               = concat (map terminate bodies)).
  { induction Hb as [|b bodies [Hlf Hcr] Hrest IH]; [reflexivity|].
    cbn [map concat]. unfold terminate at 1. rewrite <- !app_assoc.
    induction b as [|c b IHb].
    - cbn [app]. destruct Hterm as [->|[->| ->]]; cbn [app].
      + cbn [universal_newlines]. change (LF =? CR) with false. cbn iota.
        now rewrite IH.
      + cbn [universal_newlines].
        change (CR =? CR) with true. change (LF =? LF) with true. cbn iota.
        now rewrite IH.
      + rewrite universal_newlines_CR; [now rewrite IH|].
        destruct Hrest as [|b' bodies' [Hlf' _] _]; [discriminate|].
        cbn [map concat]. destruct b' as [|d b'']; cbn; [discriminate|].
        intros [= ->]. apply Hlf'. now left.
    - cbn [app universal_newlines].
      destruct (N.eqb_spec c CR) as [->|_]; [elim Hcr; now left|].
      f_equal. apply IHb; intro Hin; [apply Hlf | apply Hcr]; now right. }
  rewrite Hu. apply split_keepends_terminated_all.
  eapply Forall_impl; [|exact Hb]. cbn. intros b H. apply H.
Qed.

(** ** [rfind] and [splitext] *)

Local Open Scope Z_scope.

Lemma rfind_from_app (a b : str) (c : char) (i last : Z) :
  rfind_from (a ++ b) c i last
  = rfind_from b c (i + Z.of_nat (length a)) (rfind_from a c i last).
Proof.
  revert i last. induction a as [|x a IH]; intros i last.
  - cbn. now rewrite Z.add_0_r.
  - cbn [app rfind_from length]. rewrite IH. f_equal. lia.
Qed.

Lemma rfind_from_notin (p : str) (c : char) (i last : Z) :
  ~ In c p -> rfind_from p c i last = last.
Proof.
  revert i last. induction p as [|x p IH]; intros i last Hn; [reflexivity|].
  cbn [rfind_from]. destruct (N.eqb_spec x c) as [->|_].
  - elim Hn. now left.
  - apply IH. intro H. apply Hn. now right.
Qed.

Lemma rfind_from_range (p : str) (c : char) (i last : Z) :
  rfind_from p c i last = last
  \/ i <= rfind_from p c i last < i + Z.of_nat (length p).
Proof.
  revert i last. induction p as [|x p IH]; intros i last; [now left|].
  cbn [rfind_from length].
  destruct (IH (i + 1) (if N.eqb x c then i else last)) as [->|H].
  - destruct (N.eqb x c); [right; lia | now left].
  - right. lia.
Qed.

Lemma rfind_from_in (p : str) (c : char) (i last : Z) :
  In c p -> i <= rfind_from p c i last < i + Z.of_nat (length p).
Proof.
  revert i last. induction p as [|x p IH]; intros i last []; cbn [rfind_from length].
  - subst x. rewrite N.eqb_refl.
    destruct (rfind_from_range p c (i + 1) i) as [->|H]; lia.
  - specialize (IH (i + 1) (if N.eqb x c then i else last) H). lia.
Qed.

Lemma rfind_last (a b : str) (c : char) :
  ~ In c b -> rfind (a ++ c :: b) c = Z.of_nat (length a).
Proof.
  intro Hn. unfold rfind. rewrite rfind_from_app. cbn [rfind_from].
  rewrite N.eqb_refl. now rewrite rfind_from_notin.
Qed.

Lemma rfind_in_suffix (a b : str) (c : char) :
  In c b -> Z.of_nat (length a) <= rfind (a ++ b) c.
Proof.
  intro H. unfold rfind. rewrite rfind_from_app.
  pose proof (rfind_from_in b c (0 + Z.of_nat (length a))
                (rfind_from a c 0 (-1)) H) as Hr.
  lia.
Qed.

Lemma rfind_notin_suffix (a b : str) (c : char) :
  ~ In c b -> -1 <= rfind (a ++ b) c < Z.of_nat (length a).
Proof.
  intro H. unfold rfind. rewrite rfind_from_app, rfind_from_notin by exact H.
  destruct (rfind_from_range a c 0 (-1)) as [->|Hr]; lia.
Qed.

Lemma rfind_found (p : str) (c : char) :
  0 <= rfind p c ->
  exists a b, p = a ++ c :: b /\ ~ In c b /\ rfind p c = Z.of_nat (length a).
Proof.
  intro H.
  assert (Hin : In c p).
  { destruct (in_dec N.eq_dec c p) as [Hin|Hn]; [exact Hin|].
    unfold rfind in H. rewrite rfind_from_notin in H by exact Hn. lia. }
  clear H.
  assert (Hsplit : exists a b, p = a ++ c :: b /\ ~ In c b).
  { induction p as [|x p IH]; [destruct Hin|].
    destruct (in_dec N.eq_dec c p) as [Hp|Hp].
    - destruct (IH Hp) as (a & b & -> & Hb). now exists (x :: a), b.
    - destruct Hin as [->|Hin]; [|contradiction]. now exists [], p. }
  destruct Hsplit as (a & b & -> & Hb).
  exists a, b. repeat split; [exact Hb | now apply rfind_last].
Qed.

Lemma slice_at_length (a b : str) :
  slice_to (a ++ b) (Z.of_nat (length a)) = a
  /\ slice_from (a ++ b) (Z.of_nat (length a)) = b.
Proof.
  unfold slice_to, slice_from. rewrite Nat2Z.id.
  induction a as [|x a [IH1 IH2]]; cbn [app length firstn skipn].
  - split; reflexivity.
  - split; [now rewrite IH1 | exact IH2].
Qed.

Lemma skip_leading_dots_cases (p : str) (e : char) (d f : Z) (n : nat) :
  skip_leading_dots p e d f n = (p, [])
  \/ skip_leading_dots p e d f n = (slice_to p d, slice_from p d).
Proof.
  revert f. induction n as [|n IH]; intro f; cbn [skip_leading_dots].
  - left. reflexivity.
  - destruct (negb _); [now right | apply IH].
Qed.

(** What [_splitext] returns: the two parts make up the path, and the
    second is empty or is a last dot followed by characters that are
    neither dots nor separators. *)
Lemma _splitext_parts (p : str) (s : char) (alt : option char) (e : char) :
  let (base, ext) := _splitext p s alt e in
  base ++ ext = p
  /\ (ext = []
      \/ exists x, ext = e :: x /\ ~ In e x /\ ~ In s x
                   /\ forall a, alt = Some a -> ~ In a x).
Proof.
  unfold _splitext.
  set (sepIndex := match alt with
                   | Some a => Z.max (rfind p s) (rfind p a)
                   | None => rfind p s
                   end).
  assert (Hlow : -1 <= sepIndex).
  { pose proof (rfind_notin_suffix p [] s (fun H => H)) as H1.
    rewrite app_nil_r in H1. subst sepIndex. destruct alt; lia. }
  destruct (Z.gtb_spec (rfind p e) sepIndex) as [Hgt|_].
  2:{ split; [apply app_nil_r | now left]. }
  destruct (skip_leading_dots_cases p e (rfind p e) (sepIndex + 1)
              (Z.to_nat (rfind p e - (sepIndex + 1)))) as [-> | ->].
  { split; [apply app_nil_r | now left]. }
  destruct (rfind_found p e) as (a & b & Hp & Hb & Hr); [lia|].
  rewrite Hr in *.
  destruct (slice_at_length a (e :: b)) as [Hs1 Hs2].
  rewrite <- Hp in Hs1, Hs2. rewrite Hs1, Hs2.
  split; [now rewrite Hp|]. right. exists b.
  assert (Hsuffix : forall c, In c b -> rfind p c <= sepIndex -> False).
  { intros c Hc Hle.
    pose proof (rfind_in_suffix (a ++ [e]) b c Hc) as H.
    rewrite <- app_assoc in H. cbn [app] in H. rewrite <- Hp in H.
    rewrite length_app in H. cbn [length] in H. lia. }
  repeat split; [exact Hb | |].
  - intro Hc. apply (Hsuffix s Hc). subst sepIndex. destruct alt; lia.
  - intros c -> Hc. apply (Hsuffix c Hc). subst sepIndex. lia.
Qed.

Local Close Scope Z_scope.

(** ** The output path *)

(** C7: the output path is the input path with [_cleaned] inserted before
    its extension, the extension being empty or the last dot of the path
    and what follows it, free of dots and of separators. *)
Theorem output_path_suffix (os : os_path) (p : str) :
  (exists base ext,
      splitext os p = (base, ext)
      /\ p = base ++ ext
      /\ output_file_path os p = base ++ str_of "_cleaned" ++ ext
      /\ (ext = []
          \/ exists x, ext = extsep :: x /\ ~ In extsep x
                       /\ forall c, In c x -> is_sep os c = false))
  /\ output_file_path os (str_of "report.txt") = str_of "report_cleaned.txt"
  /\ output_file_path os (str_of "data") = str_of "data_cleaned".
Proof.
  split; [|destruct os; split; reflexivity].
  unfold output_file_path, splitext.
  pose proof (_splitext_parts p (sep os) (altsep os) extsep) as H.
  destruct (_splitext p (sep os) (altsep os) extsep) as [base ext].
  destruct H as [Hp Hext]. exists base, ext.
  repeat split; [now symmetry|].
  destruct Hext as [->|(x & -> & Hdot & Hsep & Halt)]; [now left | right].
  exists x. repeat split; [exact Hdot|].
  intros c Hc. destruct (is_sep os c) eqn:E; [exfalso | reflexivity].
  unfold is_sep in E. apply orb_true_iff in E. destruct E as [E|E].
  - apply N.eqb_eq in E. subst c. contradiction.
  - destruct (altsep os) as [a|] eqn:Ea; [|discriminate].
    apply N.eqb_eq in E. subst c. now apply (Halt a).
Qed.

Local Open Scope Z_scope.

Lemma rfind_skip_suffix (a b : str) (c : char) :
  ~ In c b -> rfind (a ++ b) c = rfind a c.
Proof.
  intro H. unfold rfind. now rewrite rfind_from_app, rfind_from_notin.
Qed.

Lemma _splitext_no_dot_to_skip (p : str) (s : char) (alt : option char)
    (e : char) :
  rfind p e
  = match alt with
    | Some a => Z.max (rfind p s) (rfind p a)
    | None => rfind p s
    end + 1 ->
  _splitext p s alt e = (p, []).
Proof.
  intro H. unfold _splitext. rewrite H.
  set (sepIndex := match alt with Some a => _ | None => _ end).
  replace (sepIndex + 1 >? sepIndex) with true by (symmetry; apply Z.gtb_lt; lia).
  now rewrite Z.sub_diag.
Qed.

(** The last separator of a path that ends in the name of a dotfile is
    the character just before the dot. *)
Lemma dotfile_sepIndex (os : os_path) (dir name : str) (c : char) :
  (dir = [] \/ exists d s, dir = d ++ [s] /\ is_sep os s = true) ->
  Forall (fun x => is_sep os x = false) name ->
  is_sep os c = true ->
  -1 <= rfind (dir ++ extsep :: name) c <= Z.of_nat (length dir) - 1
  /\ (forall d, dir = d ++ [c] ->
        rfind (dir ++ extsep :: name) c = Z.of_nat (length dir) - 1).
Proof.
  intros Hdir Hname Hc.
  assert (Hn : ~ In c (extsep :: name)).
  { intros [<-|Hin]; [destruct os; discriminate|].
    rewrite Forall_forall in Hname. rewrite (Hname c Hin) in Hc. discriminate. }
  rewrite rfind_skip_suffix by exact Hn. split.
  - pose proof (rfind_notin_suffix dir [] c (fun H => H)) as H.
    rewrite app_nil_r in H. lia.
  - intros d ->. rewrite rfind_last by (intros []).
    rewrite length_app. cbn [length]. lia.
Qed.

(** C10: for a file name that is a dot followed by characters that are
    neither dots nor separators, alone or after a directory part, the
    whole path is the base name and [_cleaned] goes at its end. *)
Theorem dotfile_output_path (os : os_path) (dir name : str) :
  (dir = [] \/ exists d s, dir = d ++ [s] /\ is_sep os s = true) ->
  ~ In extsep name ->
  Forall (fun x => is_sep os x = false) name ->
  splitext os (dir ++ extsep :: name) = (dir ++ extsep :: name, [])
  /\ output_file_path os (dir ++ extsep :: name)
     = (dir ++ extsep :: name) ++ str_of "_cleaned".
Proof.
  intros Hdir Hdot Hname.
  assert (Hsplit : splitext os (dir ++ extsep :: name)
                   = (dir ++ extsep :: name, [])).
  { unfold splitext. apply _splitext_no_dot_to_skip.
    rewrite rfind_last by exact Hdot.
    pose proof (fun c => dotfile_sepIndex os dir name c Hdir Hname) as Hsep.
    destruct Hdir as [->|(d & s & -> & Hs)].
    - cbn [length Z.of_nat] in *.
      destruct os; cbn [altsep sep].
      + pose proof (proj1 (Hsep 0x2F%N eq_refl)). lia.
      + pose proof (proj1 (Hsep 0x2F%N eq_refl)).
        pose proof (proj1 (Hsep 0x5C%N eq_refl)). lia.
    - pose proof (proj2 (Hsep s Hs) d eq_refl) as Hlast.
      destruct os; cbn [altsep sep].
      + unfold is_sep in Hs. cbn in Hs. rewrite orb_false_r in Hs.
        apply N.eqb_eq in Hs. subst s. lia.
      + pose proof (proj1 (Hsep 0x2F%N eq_refl)).
        pose proof (proj1 (Hsep 0x5C%N eq_refl)).
        unfold is_sep in Hs. cbn [altsep sep] in Hs.
        apply orb_true_iff in Hs.
        destruct Hs as [Hs|Hs]; apply N.eqb_eq in Hs; subst s; lia. }
  split; [exact Hsplit|].
  unfold output_file_path. rewrite Hsplit. now rewrite app_nil_r.
Qed.

Local Close Scope Z_scope.

Lemma dotfile_output_path_witness :
  (str_of "/home/u/" = []
   \/ exists d s, str_of "/home/u/" = d ++ [s] /\ is_sep posixpath s = true)
  /\ ~ In extsep (str_of "bashrc")
  /\ Forall (fun x => is_sep posixpath x = false) (str_of "bashrc")
  /\ splitext posixpath (str_of "/home/u/" ++ extsep :: str_of "bashrc")
     = (str_of "/home/u/" ++ extsep :: str_of "bashrc", [])
  /\ output_file_path posixpath (str_of "/home/u/" ++ extsep :: str_of "bashrc")
     = (str_of "/home/u/" ++ extsep :: str_of "bashrc") ++ str_of "_cleaned".
Proof.
  assert (H1 : str_of "/home/u/" = []
               \/ exists d s, str_of "/home/u/" = d ++ [s]
                              /\ is_sep posixpath s = true).
  { right. exists (str_of "/home/u"), 0x2F. split; reflexivity. }
  assert (H2 : ~ In extsep (str_of "bashrc")).
  { cbn. intro H. decompose [or] H; discriminate || assumption. }
  assert (H3 : Forall (fun x => is_sep posixpath x = false) (str_of "bashrc")).
  { repeat (apply Forall_cons; [reflexivity|]). apply Forall_nil. }
  split; [exact H1|]. split; [exact H2|]. split; [exact H3|].
  exact (dotfile_output_path posixpath _ _ H1 H2 H3).
Defined.

(** * Further properties of the output path *)

Local Open Scope Z_scope.

Lemma splitext_unfold (os : os_path) (p : str) :
  splitext os p
  = if rfind p extsep >? sepIndex_of os p then
      skip_leading_dots p extsep (rfind p extsep) (sepIndex_of os p + 1)
        (Z.to_nat (rfind p extsep - (sepIndex_of os p + 1)))
    else (p, []).
Proof. reflexivity. Qed.

Lemma rfind_from_shift (p : str) (c : char) (i last : Z) :
  In c p -> rfind_from p c i last = i + rfind p c.
Proof.
  unfold rfind. revert i last.
  induction p as [|x p IH]; intros i last Hin; [destruct Hin|].
  cbn [rfind_from]. destruct (in_dec N.eq_dec c p) as [Hp|Hp].
  - rewrite (IH (i + 1) _ Hp), (IH (0 + 1) _ Hp). lia.
  - destruct Hin as [->|Hin]; [|contradiction].
    rewrite N.eqb_refl, !rfind_from_notin by exact Hp. lia.
Qed.

Lemma rfind_range (p : str) (c : char) :
  -1 <= rfind p c < Z.of_nat (length p).
Proof.
  pose proof (rfind_notin_suffix p [] c (fun H => H)) as H.
  now rewrite app_nil_r in H.
Qed.

Lemma rfind_notin (p : str) (c : char) : ~ In c p -> rfind p c = -1.
Proof. intro H. unfold rfind. now apply rfind_from_notin. Qed.

Lemma rfind_in_name (dir name : str) (c : char) :
  In c name ->
  rfind (dir ++ name) c = Z.of_nat (length dir) + rfind name c
  /\ 0 <= rfind name c.
Proof.
  intro H. split.
  - unfold rfind at 1. rewrite rfind_from_app, rfind_from_shift by exact H. lia.
  - pose proof (rfind_in_suffix [] name c H) as Hr.
    cbn [app length Z.of_nat] in Hr. lia.
Qed.

Lemma is_sep_extsep (os : os_path) : is_sep os extsep = false.
Proof. destruct os; reflexivity. Qed.

Lemma component_notin (os : os_path) (name : str) (c : char) :
  component os name -> is_sep os c = true -> ~ In c name.
Proof.
  intros Hn Hc Hin. unfold component in Hn. rewrite Forall_forall in Hn.
  rewrite (Hn c Hin) in Hc. discriminate.
Qed.

(** In [dir ++ name] the last separator is the last character of
    [dir]. *)
Lemma sepIndex_of_dir (os : os_path) (dir name : str) :
  dir_part os dir -> component os name ->
  sepIndex_of os (dir ++ name) = Z.of_nat (length dir) - 1.
Proof.
  intros Hdir Hname.
  assert (Hc : forall c, is_sep os c = true ->
             rfind (dir ++ name) c = rfind dir c).
  { intros c Hc. apply rfind_skip_suffix. now apply component_notin with os. }
  assert (Hlast : forall d c, dir = d ++ [c] ->
             rfind dir c = Z.of_nat (length dir) - 1).
  { intros d c ->. rewrite rfind_last by (intros []).
    rewrite length_app. cbn [length]. lia. }
  unfold sepIndex_of.
  destruct os; cbn [altsep sep].
  - rewrite (Hc 0x2F%N eq_refl).
    destruct Hdir as [->|(d & s & Hd & Hs)]; [reflexivity|].
    unfold is_sep in Hs. cbn in Hs. rewrite orb_false_r in Hs.
    apply N.eqb_eq in Hs. subst s. now apply (Hlast d).
  - rewrite (Hc 0x5C%N eq_refl), (Hc 0x2F%N eq_refl).
    destruct Hdir as [->|(d & s & Hd & Hs)]; [reflexivity|].
    pose proof (rfind_range dir 0x5C%N). pose proof (rfind_range dir 0x2F%N).
    unfold is_sep in Hs. cbn [altsep sep] in Hs. apply orb_true_iff in Hs.
    destruct Hs as [Hs|Hs]; apply N.eqb_eq in Hs; subst s;
      rewrite (Hlast d _ Hd) in *; lia.
Qed.

Lemma sepIndex_of_name (os : os_path) (name : str) :
  component os name -> sepIndex_of os name = -1.
Proof.
  intro H. apply (sepIndex_of_dir os [] name); [now left | exact H].
Qed.

Lemma firstn_past (a b : str) (k : nat) :
  firstn (length a + k) (a ++ b) = a ++ firstn k b.
Proof. induction a as [|x a IH]; cbn; [reflexivity | now rewrite IH]. Qed.

Lemma skipn_past (a b : str) (k : nat) :
  skipn (length a + k) (a ++ b) = skipn k b.
Proof. induction a as [|x a IH]; cbn; [reflexivity | exact IH]. Qed.

Lemma slice_to_past (a b : str) (j : Z) :
  0 <= j -> slice_to (a ++ b) (Z.of_nat (length a) + j) = a ++ slice_to b j.
Proof.
  intro H. unfold slice_to.
  replace (Z.to_nat (Z.of_nat (length a) + j))
    with (length a + Z.to_nat j)%nat by lia.
  apply firstn_past.
Qed.

Lemma slice_from_past (a b : str) (i : Z) :
  0 <= i -> slice_from (a ++ b) (Z.of_nat (length a) + i) = slice_from b i.
Proof.
  intro H. unfold slice_from.
  replace (Z.to_nat (Z.of_nat (length a) + i))
    with (length a + Z.to_nat i)%nat by lia.
  apply skipn_past.
Qed.

Lemma slice_one (a b : str) (x : char) :
  slice (a ++ x :: b) (Z.of_nat (length a)) (Z.of_nat (length a) + 1) = [x].
Proof.
  unfold slice. destruct (slice_at_length a (x :: b)) as [_ ->].
  unfold slice_to.
  replace (Z.of_nat (length a) + 1 - Z.of_nat (length a)) with 1 by lia.
  reflexivity.
Qed.

Lemma skip_leading_dots_dir (dir name : str) (e : char) (d : Z) (n : nat) :
  0 <= d -> forall f, 0 <= f ->
  skip_leading_dots (dir ++ name) e (Z.of_nat (length dir) + d)
    (Z.of_nat (length dir) + f) n
  = let (b, x) := skip_leading_dots name e d f n in (dir ++ b, x).
Proof.
  intro Hd. induction n as [|n IH]; intros f Hf; cbn [skip_leading_dots].
  - reflexivity.
  - assert (Hs : slice (dir ++ name) (Z.of_nat (length dir) + f)
                   (Z.of_nat (length dir) + f + 1)
                 = slice name f (f + 1)).
    { unfold slice. rewrite slice_from_past by exact Hf.
      f_equal. lia. }
    rewrite Hs. destruct (negb _).
    + now rewrite slice_to_past, slice_from_past.
    + rewrite <- Z.add_assoc. apply IH. lia.
Qed.

(** [splitext] works on the last component only. *)
Lemma splitext_dir (os : os_path) (dir name : str) :
  dir_part os dir -> component os name ->
  splitext os (dir ++ name)
  = let (b, x) := splitext os name in (dir ++ b, x).
Proof.
  intros Hdir Hname. rewrite !splitext_unfold.
  rewrite (sepIndex_of_dir os dir name Hdir Hname),
    (sepIndex_of_name os name Hname).
  destruct (in_dec N.eq_dec extsep name) as [Hin|Hn].
  - destruct (rfind_in_name dir name extsep Hin) as [-> Hpos].
    replace (_ >? _) with true by (symmetry; apply Z.gtb_lt; lia).
    replace (rfind name extsep >? -1) with true
      by (symmetry; apply Z.gtb_lt; lia).
    replace (Z.of_nat (length dir) - 1 + 1)
      with (Z.of_nat (length dir) + 0) by lia.
    replace (Z.of_nat (length dir) + rfind name extsep
             - (Z.of_nat (length dir) + 0))
      with (rfind name extsep - (-1 + 1)) by lia.
    apply skip_leading_dots_dir; lia.
  - rewrite (rfind_skip_suffix dir name extsep Hn), (rfind_notin name extsep Hn).
    pose proof (rfind_range dir extsep).
    replace (_ >? _) with false
      by (symmetry; rewrite Z.gtb_ltb; apply Z.ltb_ge; lia).
    reflexivity.
Qed.

Lemma skip_leading_dots_found (e x : char) (d : Z) (dots : str) :
  all_dots_of e dots -> x <> e ->
  forall pre rest n, (length dots < n)%nat ->
  skip_leading_dots (pre ++ dots ++ x :: rest) e d (Z.of_nat (length pre)) n
  = (slice_to (pre ++ dots ++ x :: rest) d,
     slice_from (pre ++ dots ++ x :: rest) d).
Proof.
  intros Hdots Hx. induction Hdots as [|y dots -> _ IH]; intros pre rest n Hn.
  - destruct n as [|n]; [cbn in Hn; lia|]. cbn [skip_leading_dots app].
    rewrite slice_one. cbn [str_eqb].
    apply N.eqb_neq in Hx. now rewrite Hx.
  - destruct n as [|n]; [cbn in Hn; lia|]. cbn [skip_leading_dots app].
    rewrite slice_one. cbn [str_eqb]. rewrite N.eqb_refl. cbn [andb negb].
    specialize (IH (pre ++ [e]) rest n).
    rewrite <- app_assoc, length_app in IH. cbn [app length] in IH.
    rewrite Nat2Z.inj_add in IH. apply IH. cbn [length] in Hn. lia.
Qed.

Lemma skip_leading_dots_none (e : char) (d : Z) (n : nat) :
  forall dots pre rest, all_dots_of e dots -> (n <= length dots)%nat ->
  skip_leading_dots (pre ++ dots ++ rest) e d (Z.of_nat (length pre)) n
  = (pre ++ dots ++ rest, []).
Proof.
  induction n as [|n IH]; intros dots pre rest Hdots Hn; [reflexivity|].
  destruct Hdots as [|y dots -> Hdots]; [cbn in Hn; lia|].
  cbn [skip_leading_dots app]. rewrite slice_one. cbn [str_eqb].
  rewrite N.eqb_refl. cbn [andb negb].
  specialize (IH dots (pre ++ [e]) rest Hdots).
  rewrite <- app_assoc, length_app in IH. cbn [app length] in IH.
  rewrite Nat2Z.inj_add in IH. apply IH. cbn [length] in Hn. lia.
Qed.

Lemma all_dots_snoc (e : char) (l : str) :
  all_dots_of e l -> e :: l = l ++ [e].
Proof.
  induction 1 as [|x l -> _ IH]; [reflexivity|].
  cbn [app]. now rewrite <- IH.
Qed.

Lemma first_non_dot (e : char) (s : str) :
  ~ all_dots_of e s ->
  exists dots x r, s = dots ++ x :: r /\ all_dots_of e dots /\ x <> e.
Proof.
  induction s as [|y s IH]; intro H.
  - elim H. constructor.
  - destruct (N.eq_dec y e) as [->|Hy].
    + destruct IH as (dots & x & r & -> & Hd & Hx).
      { intro Hs. apply H. now constructor. }
      exists (e :: dots), x, r. repeat split; [now constructor | exact Hx].
    + exists [], y, s. repeat split; [constructor | exact Hy].
Qed.

Lemma splitext_stem (os : os_path) (stem ext : str) :
  component os stem -> ~ In extsep ext -> ~ all_dots stem ->
  component os ext ->
  splitext os (stem ++ extsep :: ext) = (stem, extsep :: ext).
Proof.
  intros Hstem Hdot Hnd Hext. rewrite splitext_unfold.
  rewrite sepIndex_of_name.
  2:{ apply Forall_app. split; [exact Hstem|].
      constructor; [apply is_sep_extsep | exact Hext]. }
  rewrite rfind_last by exact Hdot.
  replace (_ >? _) with true by (symmetry; apply Z.gtb_lt; lia).
  destruct (first_non_dot extsep stem Hnd) as (dots & x & r & Hs & Hd & Hx).
  assert (Hlen : (length dots < length stem)%nat).
  { rewrite Hs, length_app. cbn [length]. lia. }
  replace (Z.of_nat (length stem) - (-1 + 1)) with (Z.of_nat (length stem))
    by lia.
  rewrite Nat2Z.id.
  pose proof (skip_leading_dots_found extsep x (Z.of_nat (length stem)) dots
                Hd Hx [] (r ++ extsep :: ext) (length stem) Hlen) as Hskip.
  cbn [app length Z.of_nat] in Hskip.
  replace (dots ++ x :: r ++ extsep :: ext) with (stem ++ extsep :: ext)
    in Hskip by (rewrite Hs, <- app_assoc; reflexivity).
  change (-1 + 1) with 0. rewrite Hskip.
  now destruct (slice_at_length stem (extsep :: ext)) as [-> ->].
Qed.

Lemma splitext_dots (os : os_path) (dots rest : str) :
  all_dots dots -> component os rest -> ~ In extsep rest ->
  splitext os (dots ++ rest) = (dots ++ rest, []).
Proof.
  intros Hd Hrest Hdot. rewrite splitext_unfold.
  rewrite sepIndex_of_name.
  2:{ apply Forall_app. split; [|exact Hrest].
      eapply Forall_impl; [|exact Hd]. cbn. intros a ->. apply is_sep_extsep. }
  destruct dots as [|y dots'] eqn:E.
  - cbn [app]. rewrite (rfind_notin rest extsep Hdot). reflexivity.
  - inversion Hd as [|? ? Hy Hd']; subst.
    rewrite (all_dots_snoc extsep dots' Hd'), <- app_assoc. cbn [app].
    rewrite rfind_last by exact Hdot.
    replace (_ >? _) with true by (symmetry; apply Z.gtb_lt; lia).
    replace (Z.of_nat (length dots') - (-1 + 1)) with (Z.of_nat (length dots'))
      by lia.
    rewrite Nat2Z.id.
    pose proof (skip_leading_dots_none extsep (Z.of_nat (length dots'))
                  (length dots') dots' [] (extsep :: rest) Hd' (le_n _))
      as Hskip.
    cbn [app length Z.of_nat] in Hskip. change (-1 + 1) with 0.
    exact Hskip.
Qed.

Local Close Scope Z_scope.

Lemma component_app (os : os_path) (a b : str) :
  component os a -> component os b -> component os (a ++ b).
Proof. intros Ha Hb. apply Forall_app. now split. Qed.

Lemma component_suffix : forall os, component os (str_of "_cleaned").
Proof.
  intro os. unfold component.
  repeat (apply Forall_cons; [destruct os; reflexivity|]). apply Forall_nil.
Qed.

(** X1: the output path is eight characters longer than the input path,
    and so is a different string. *)
Theorem output_path_is_new (os : os_path) (p : str) :
  length (output_file_path os p) = (length p + 8)%nat
  /\ output_file_path os p <> p.
Proof.
  assert (Hlen : length (output_file_path os p) = (length p + 8)%nat).
  { unfold output_file_path, splitext.
    pose proof (_splitext_parts p (sep os) (altsep os) extsep) as H.
    destruct (_splitext p (sep os) (altsep os) extsep) as [base ext].
    destruct H as [<- _]. rewrite !length_app. cbn [str_of length]. lia. }
  split; [exact Hlen|].
  intro H. rewrite H in Hlen. lia.
Qed.

(** X2: the directory part of the path is kept as it is, and what
    replaces the file name holds no separator: the output file is in the
    directory of the input file. *)
Theorem output_path_same_directory (os : os_path) (dir name : str) :
  dir_part os dir -> component os name ->
  output_file_path os (dir ++ name) = dir ++ output_file_path os name
  /\ component os (output_file_path os name).
Proof.
  intros Hdir Hname. split.
  - unfold output_file_path. rewrite (splitext_dir os dir name Hdir Hname).
    destruct (splitext os name) as [b x]. now rewrite <- app_assoc.
  - unfold output_file_path, splitext.
    pose proof (_splitext_parts name (sep os) (altsep os) extsep) as H.
    destruct (_splitext name (sep os) (altsep os) extsep) as [base ext].
    destruct H as [Hp _]. rewrite <- Hp in Hname.
    apply Forall_app in Hname. destruct Hname as [Hb He].
    repeat apply component_app; [exact Hb | apply component_suffix | exact He].
Qed.

Lemma output_path_same_directory_witness :
  dir_part posixpath (str_of "/home/u/")
  /\ component posixpath (str_of "novel.txt")
  /\ output_file_path posixpath (str_of "/home/u/" ++ str_of "novel.txt")
     = str_of "/home/u/" ++ output_file_path posixpath (str_of "novel.txt")
  /\ component posixpath (output_file_path posixpath (str_of "novel.txt")).
Proof.
  assert (H1 : dir_part posixpath (str_of "/home/u/")).
  { right. exists (str_of "/home/u"), 0x2F. split; reflexivity. }
  assert (H2 : component posixpath (str_of "novel.txt")).
  { repeat (apply Forall_cons; [reflexivity|]). apply Forall_nil. }
  split; [exact H1|]. split; [exact H2|].
  exact (output_path_same_directory posixpath _ _ H1 H2).
Defined.

(** X3: when the file name has a character other than a dot before its
    last dot, the suffix goes just before that last dot, whatever other
    dots the name has. *)
Theorem suffix_before_last_dot (os : os_path) (dir stem ext : str) :
  dir_part os dir -> component os stem -> ~ all_dots stem ->
  component os ext -> ~ In extsep ext ->
  output_file_path os (dir ++ stem ++ extsep :: ext)
  = dir ++ stem ++ str_of "_cleaned" ++ extsep :: ext.
Proof.
  intros Hdir Hstem Hnd Hext Hdot.
  assert (Hname : component os (stem ++ extsep :: ext)).
  { apply component_app; [exact Hstem|].
    constructor; [apply is_sep_extsep | exact Hext]. }
  unfold output_file_path.
  rewrite (splitext_dir os dir _ Hdir Hname).
  rewrite (splitext_stem os stem ext Hstem Hdot Hnd Hext).
  now rewrite <- app_assoc.
Qed.

Lemma suffix_before_last_dot_witness :
  dir_part ntpath (str_of "C:/books/")
  /\ component ntpath (str_of ".vol.1.tar")
  /\ ~ all_dots (str_of ".vol.1.tar")
  /\ component ntpath (str_of "gz")
  /\ ~ In extsep (str_of "gz")
  /\ output_file_path ntpath
       (str_of "C:/books/" ++ str_of ".vol.1.tar" ++ extsep :: str_of "gz")
     = str_of "C:/books/" ++ str_of ".vol.1.tar" ++ str_of "_cleaned"
       ++ extsep :: str_of "gz".
Proof.
  assert (H1 : dir_part ntpath (str_of "C:/books/")).
  { right. exists (str_of "C:/books"), 0x2F. split; reflexivity. }
  assert (H2 : component ntpath (str_of ".vol.1.tar")).
  { repeat (apply Forall_cons; [reflexivity|]). apply Forall_nil. }
  assert (H3 : ~ all_dots (str_of ".vol.1.tar")).
  { intro H. inversion H as [|? ? _ H']. inversion H' as [|? ? E _].
    discriminate E. }
  assert (H4 : component ntpath (str_of "gz")).
  { repeat (apply Forall_cons; [reflexivity|]). apply Forall_nil. }
  assert (H5 : ~ In extsep (str_of "gz")).
  { cbn. intro H. decompose [or] H; discriminate || assumption. }
  repeat (split; [assumption|]).
  exact (suffix_before_last_dot ntpath _ _ _ H1 H2 H3 H4 H5).
Defined.

(** X4: a file name made of dots followed by characters that are neither
    dots nor separators (no dot at all, one leading dot, several) has no
    extension: the suffix goes at the end of the path. *)
Theorem suffix_after_dotted_name (os : os_path) (dir dots rest : str) :
  dir_part os dir -> all_dots dots -> component os rest ->
  ~ In extsep rest ->
  output_file_path os (dir ++ dots ++ rest)
  = (dir ++ dots ++ rest) ++ str_of "_cleaned".
Proof.
  intros Hdir Hd Hrest Hdot.
  assert (Hname : component os (dots ++ rest)).
  { apply component_app; [|exact Hrest].
    eapply Forall_impl; [|exact Hd]. cbn. intros a ->. apply is_sep_extsep. }
  unfold output_file_path.
  rewrite (splitext_dir os dir _ Hdir Hname).
  rewrite (splitext_dots os dots rest Hd Hrest Hdot).
  now rewrite app_nil_r.
Qed.

Lemma suffix_after_dotted_name_witness :
  dir_part posixpath (str_of "a.b/")
  /\ all_dots (str_of "...")
  /\ component posixpath (str_of "notes")
  /\ ~ In extsep (str_of "notes")
  /\ output_file_path posixpath
       (str_of "a.b/" ++ str_of "..." ++ str_of "notes")
     = (str_of "a.b/" ++ str_of "..." ++ str_of "notes") ++ str_of "_cleaned".
Proof.
  assert (H1 : dir_part posixpath (str_of "a.b/")).
  { right. exists (str_of "a.b"), 0x2F. split; reflexivity. }
  assert (H2 : all_dots (str_of "...")).
  { repeat (apply Forall_cons; [reflexivity|]). apply Forall_nil. }
  assert (H3 : component posixpath (str_of "notes")).
  { repeat (apply Forall_cons; [reflexivity|]). apply Forall_nil. }
  assert (H4 : ~ In extsep (str_of "notes")).
  { cbn. intro H. decompose [or] H; discriminate || assumption. }
  repeat (split; [assumption|]).
  exact (suffix_after_dotted_name posixpath _ _ _ H1 H2 H3 H4).
Defined.

(** * Further properties of the line filter *)

Lemma lstrip_head (s r : str) (c : char) :
  lstrip s = c :: r -> py_isspace c = false.
Proof.
  induction s as [|x s IH]; [discriminate|].
  cbn [lstrip]. destruct (py_isspace x) eqn:E; [exact IH|].
  intros [= <- _]. exact E.
Qed.

Lemma lstrip_keep (c : char) (r : str) :
  py_isspace c = false -> lstrip (c :: r) = c :: r.
Proof. intro H. cbn [lstrip]. now rewrite H. Qed.

Lemma strip_parts (s : str) :
  exists pre post,
    s = pre ++ strip s ++ post /\ all_space pre /\ all_space post.
Proof.
  destruct (lstrip_suffix s) as (pre & Hs & Hpre).
  destruct (rstrip_prefix (lstrip s)) as (post & Ht & Hpost).
  exists pre, post. repeat split; [|exact Hpre | exact Hpost].
  unfold strip. now rewrite <- Ht.
Qed.

Lemma strip_trimmed (s : str) : strip s <> [] -> trimmed (strip s).
Proof.
  intro Hne. split.
  - destruct (strip s) as [|a m] eqn:E; [now elim Hne|].
    exists a, m. split; [reflexivity|].
    destruct (rstrip_prefix (lstrip s)) as (post & Ht & _).
    fold (strip s) in Ht. rewrite E in Ht. cbn [app] in Ht.
    now apply lstrip_head in Ht.
  - destruct (exists_last Hne) as (m & z & E). exists m, z.
    split; [exact E|].
    unfold strip, rstrip in E. apply (f_equal (@rev _)) in E.
    rewrite rev_involutive, rev_app_distr in E. cbn [rev app] in E.
    now apply lstrip_head in E.
Qed.

Lemma strip_fixed (t : str) : trimmed t -> strip t = t.
Proof.
  intros [(a & m & Ha & Hsa) (m' & z & Hz & Hsz)]. unfold strip.
  assert (Hl : lstrip t = t) by (rewrite Ha; now apply lstrip_keep).
  rewrite Hl. unfold rstrip. rewrite Hz, rev_app_distr. cbn [rev app].
  rewrite lstrip_keep by exact Hsz.
  change (z :: rev m') with (rev [z] ++ rev m').
  now rewrite <- rev_app_distr, rev_involutive.
Qed.

Lemma trimmed_nonempty (t : str) : trimmed t -> t <> [].
Proof. intros [(a & m & -> & _) _]. discriminate. Qed.

Lemma nothing_to_keep_stripped (s : str) :
  nothing_to_keep s <-> stripped_line s = [].
Proof.
  unfold nothing_to_keep. rewrite Forall_forall. split.
  - intro H. unfold stripped_line. apply strip_all_space, Forall_forall.
    intros c Hc. apply cleaned_line_In in Hc. destruct Hc as [Hin Hw].
    destruct (H c Hin) as [Hs|Hn]; [exact Hs | congruence].
  - intros H c Hc. destruct (whitelisted c) eqn:Hw; [left | now right].
    destruct (strip_parts (cleaned_line s)) as (pre & post & Hs & Hpre & Hpost).
    fold (stripped_line s) in Hs. rewrite H in Hs. cbn [app] in Hs.
    assert (Hin : In c (pre ++ post)).
    { rewrite <- Hs. apply cleaned_line_In. now split. }
    unfold all_space in *. rewrite Forall_forall in Hpre, Hpost.
    apply in_app_or in Hin. destruct Hin; auto.
Qed.

(** X5: what the filter lets through is the cleaned line without the
    whitespace at its two ends; whitespace inside is kept, and the result
    neither begins nor ends with a whitespace character. *)
Theorem result_is_trimmed (s t : str) :
  filterLine s = Some t ->
  trimmed t
  /\ exists pre post,
       cleaned_line s = pre ++ t ++ post /\ all_space pre /\ all_space post.
Proof.
  intro H. apply filterLine_Some in H. destruct H as [<- Hne]. split.
  - now apply strip_trimmed.
  - apply strip_parts.
Qed.

Lemma result_is_trimmed_witness :
  filterLine (str_of " (a  b) " ++ [0x3000; LF]) = Some (str_of "a  b")
  /\ trimmed (str_of "a  b")
  /\ exists pre post,
       cleaned_line (str_of " (a  b) " ++ [0x3000; LF])
       = pre ++ str_of "a  b" ++ post /\ all_space pre /\ all_space post.
Proof.
  assert (H : filterLine (str_of " (a  b) " ++ [0x3000; LF])
              = Some (str_of "a  b")) by reflexivity.
  split; [exact H | exact (result_is_trimmed _ _ H)].
Defined.

(** X6: a line is suppressed exactly when each of its characters is
    whitespace or is outside the whitelist. *)
Theorem suppressed_iff_nothing_to_keep (s : str) :
  filterLine s = None <-> nothing_to_keep s.
Proof.
  split; intro H.
  - apply nothing_to_keep_stripped. now apply filterLine_None.
  - apply filterLine_None. now apply nothing_to_keep_stripped.
Qed.

(** X7: the lines the filter returns unchanged are exactly the strings
    of whitelisted characters that neither begin nor end with
    whitespace. *)
Theorem filterLine_fixed_points (t : str) :
  filterLine t = Some t <->
  Forall (fun c => whitelisted c = true) t /\ trimmed t.
Proof.
  rewrite filterLine_Some. split.
  - intros [H Hne]. split.
    + rewrite <- H. apply stripped_line_whitelisted.
    + rewrite <- H. unfold stripped_line. apply strip_trimmed.
      fold (stripped_line t). now rewrite H.
  - intros [Hw Ht]. split; [|now apply trimmed_nonempty].
    unfold stripped_line. rewrite (cleaned_line_fixed t Hw).
    now apply strip_fixed.
Qed.

Lemma py_isspace_bound (c : char) : py_isspace c = true -> c <= 0x3000.
Proof.
  unfold py_isspace, in_range.
  rewrite ?orb_true_iff, ?andb_true_iff, ?N.leb_le, ?N.eqb_eq. lia.
Qed.

Lemma whitelisted_bound (c : char) :
  whitelisted c = true -> c <= 0xFF1F /\ ~ surrogate c.
Proof.
  intro H. apply whitelisted_spec in H. unfold surrogate.
  destruct H as [H| ->]; [|unfold tilde; lia].
  unfold spec_whitelist, spec_punctuation in H. cbn [In] in H.
  decompose [or] H; try lia.
  match goal with Hs : py_isspace c = true |- _ =>
    apply py_isspace_bound in Hs; lia end.
Qed.

Lemma cleaned_output_chars (lines : list str) (c : char) :
  In c (process_lines lines []) ->
  c = LF \/ exists l t, In l lines /\ filterLine l = Some t /\ In c t.
Proof.
  rewrite process_lines_app. cbn [app]. intro H.
  apply in_concat in H. destruct H as (x & Hx & Hc).
  apply in_map_iff in Hx. destruct Hx as (t & <- & Ht).
  apply spec_cleaned_lines_In in Ht. destruct Ht as (l & Hl & Hf).
  unfold terminate in Hc. apply in_app_or in Hc.
  destruct Hc as [Hc|[Hc|[]]]; [right | now left].
  now exists l, t.
Qed.

(** X8: every character written to the output file is in the whitelist;
    none is above U+FF1F and none is a surrogate, so that the output can
    always be encoded as UTF-8. *)
Theorem output_is_encodable (os : os_path) (path text : str) :
  Forall (fun c => whitelisted c = true /\ c <= 0xFF1F /\ ~ surrogate c)
    (snd (clean_text_file os path text)).
Proof.
  apply Forall_forall. intros c Hc. unfold clean_text_file in Hc.
  cbn [snd] in Hc. apply cleaned_output_chars in Hc.
  assert (Hw : whitelisted c = true).
  { destruct Hc as [->|(l & t & _ & Hf & Hin)]; [reflexivity|].
    apply filterLine_Some in Hf. destruct Hf as [<- _].
    pose proof (stripped_line_whitelisted l) as H.
    rewrite Forall_forall in H. now apply H. }
  split; [exact Hw | now apply whitelisted_bound].
Qed.

(** * Further properties of the whole run *)

(** Induction along the cases of [universal_newlines]. *)
Lemma universal_newlines_cases (P : str -> str -> Prop) :
  P [] [] ->
  (forall c rest, c <> CR -> P rest (universal_newlines rest) ->
                  P (c :: rest) (c :: universal_newlines rest)) ->
  P [CR] [LF] ->
  (forall rest, P rest (universal_newlines rest) ->
                P (CR :: LF :: rest) (LF :: universal_newlines rest)) ->
  (forall d rest, d <> LF ->
                  P (d :: rest) (universal_newlines (d :: rest)) ->
                  P (CR :: d :: rest) (LF :: universal_newlines (d :: rest))) ->
  forall s, P s (universal_newlines s).
Proof.
  intros Hnil Hcons Hcr Hcrlf Hcrd s.
  assert (H : forall n s, (length s <= n)%nat -> P s (universal_newlines s)).
  { clear s. induction n as [|n IH]; intros [|c rest] Hlen;
      cbn [length] in Hlen; try exact Hnil; try lia.
    destruct (N.eqb_spec c CR) as [->|Hc].
    - destruct rest as [|d rest']; [exact Hcr|].
      cbn [length] in Hlen.
      destruct (N.eqb_spec d LF) as [->|Hd].
      + change (universal_newlines (CR :: LF :: rest'))
          with (LF :: universal_newlines rest').
        apply Hcrlf, IH. lia.
      + replace (universal_newlines (CR :: d :: rest'))
          with (LF :: universal_newlines (d :: rest')).
        * apply Hcrd; [exact Hd|]. apply IH. cbn [length]. lia.
        * cbn [universal_newlines]. change (CR =? CR) with true. cbn iota.
          apply N.eqb_neq in Hd. now rewrite Hd.
    - replace (universal_newlines (c :: rest))
        with (c :: universal_newlines rest).
      + apply Hcons; [exact Hc|]. apply IH. lia.
      + cbn [universal_newlines]. apply N.eqb_neq in Hc. now rewrite Hc. }
  apply (H (length s)). lia.
Qed.

Lemma universal_newlines_In (s : str) (c : char) :
  In c (universal_newlines s) -> In c s \/ c = LF.
Proof.
  pattern s, (universal_newlines s). apply universal_newlines_cases.
  - intros [].
  - intros x rest _ IH [->|H]; [left; now left|].
    destruct (IH H) as [Hin| ->]; [left; now right | now right].
  - intros [<-|[]]. now right.
  - intros rest IH [<-|H]; [now right|].
    destruct (IH H) as [Hin| ->]; [left; right; now right | now right].
  - intros d rest _ IH [<-|H]; [now right|].
    destruct (IH H) as [Hin| ->]; [left; now right | now right].
Qed.

Lemma universal_newlines_keeps (s : str) (c : char) :
  In c s -> c <> CR -> In c (universal_newlines s).
Proof.
  intros Hin Hc. revert Hin.
  pattern s, (universal_newlines s). apply universal_newlines_cases.
  - intros [].
  - intros x rest _ IH [->|H]; [now left | right; auto].
  - intros [<-|[]]. now elim Hc.
  - intros rest IH [<-|[<-|H]]; [now elim Hc | now left | right; auto].
  - intros d rest _ IH [<-|H]; [now elim Hc | right; auto].
Qed.

Lemma universal_newlines_length (s : str) :
  (length (universal_newlines s) <= length s)%nat.
Proof.
  pattern s, (universal_newlines s). apply universal_newlines_cases;
    intros; cbn [length] in *; lia.
Qed.

Lemma universal_newlines_id (s : str) :
  ~ In CR s -> universal_newlines s = s.
Proof.
  induction s as [|c rest IH]; intro H; [reflexivity|].
  cbn [universal_newlines]. destruct (N.eqb_spec c CR) as [->|_].
  - elim H. now left.
  - rewrite IH; [reflexivity|]. intro Hin. apply H. now right.
Qed.

(** A [\n] ends a line whatever comes before it. *)
Lemma universal_newlines_at_LF (a : str) :
  exists z, forall b,
    universal_newlines (a ++ LF :: b) = z ++ LF :: universal_newlines b.
Proof.
  pattern a, (universal_newlines a). apply universal_newlines_cases.
  - exists []. reflexivity.
  - intros c rest Hc (z & Hz). exists (c :: z). intro b.
    cbn [app universal_newlines]. apply N.eqb_neq in Hc. rewrite Hc.
    now rewrite Hz.
  - exists []. reflexivity.
  - intros rest (z & Hz). exists (LF :: z). intro b.
    cbn [app universal_newlines]. change (CR =? CR) with true.
    change (LF =? LF) with true. cbn iota. now rewrite Hz.
  - intros d rest Hd (z & Hz). exists (LF :: z). intro b.
    cbn [app universal_newlines]. change (CR =? CR) with true. cbn iota.
    apply N.eqb_neq in Hd. rewrite Hd. cbn [app] in Hz.
    change (universal_newlines (d :: rest ++ LF :: b))
      with (universal_newlines ((d :: rest) ++ LF :: b)).
    now rewrite <- Hz.
Qed.

Lemma split_keepends_at_LF (z y : str) :
  split_keepends (z ++ LF :: y)
  = split_keepends (z ++ [LF]) ++ split_keepends y.
Proof.
  induction z as [|c z IH]; [reflexivity|].
  cbn [app split_keepends]. rewrite IH.
  destruct (c =? LF); [reflexivity|].
  destruct (split_keepends (z ++ [LF])) as [|l ls] eqn:E; [|reflexivity].
  pose proof (split_keepends_concat (z ++ [LF])) as H. rewrite E in H.
  destruct z; discriminate H.
Qed.

Lemma file_lines_at_LF (a b : str) :
  file_lines (a ++ LF :: b) = file_lines (a ++ [LF]) ++ file_lines b.
Proof.
  unfold file_lines. destruct (universal_newlines_at_LF a) as (z & Hz).
  rewrite (Hz b), (Hz []). apply split_keepends_at_LF.
Qed.

Lemma spec_cleaned_lines_app (l1 l2 : list str) :
  spec_cleaned_lines (l1 ++ l2)
  = spec_cleaned_lines l1 ++ spec_cleaned_lines l2.
Proof.
  unfold spec_cleaned_lines. induction l1 as [|l l1 IH]; [reflexivity|].
  cbn [app map skip_absent]. destruct (filterLine l); cbn [app]; now rewrite IH.
Qed.

Lemma process_lines_concat (l1 l2 : list str) :
  process_lines (l1 ++ l2) [] = process_lines l1 [] ++ process_lines l2 [].
Proof.
  rewrite !process_lines_app. cbn [app].
  now rewrite spec_cleaned_lines_app, map_app, concat_app.
Qed.

Lemma spec_cleaned_lines_nil (lines : list str) :
  spec_cleaned_lines lines = [] <->
  Forall (fun l => filterLine l = None) lines.
Proof.
  unfold spec_cleaned_lines. induction lines as [|l lines IH].
  - split; [constructor | reflexivity].
  - cbn [map skip_absent]. destruct (filterLine l) as [t|] eqn:E; split.
    + discriminate.
    + intro H. inversion H; congruence.
    + intro H. constructor; [exact E | now apply IH].
    + intro H. inversion H. now apply IH.
Qed.

Lemma nothing_to_keep_universal (text : str) :
  nothing_to_keep (universal_newlines text) <-> nothing_to_keep text.
Proof.
  unfold nothing_to_keep. rewrite !Forall_forall. split; intros H c Hc.
  - destruct (N.eq_dec c CR) as [->|Hn]; [now left|].
    apply H. now apply universal_newlines_keeps.
  - apply universal_newlines_In in Hc. destruct Hc as [Hc| ->]; [auto|].
    now left.
Qed.

(** X9: the output file is empty exactly when every character of the
    input is whitespace or is outside the whitelist. *)
Theorem empty_output_iff (os : os_path) (path text : str) :
  snd (clean_text_file os path text) = [] <-> nothing_to_keep text.
Proof.
  unfold clean_text_file. cbn [snd]. rewrite process_lines_app. cbn [app].
  rewrite <- nothing_to_keep_universal.
  rewrite <- (split_keepends_concat (universal_newlines text)).
  fold (file_lines text). unfold nothing_to_keep. rewrite Forall_concat.
  transitivity (spec_cleaned_lines (file_lines text) = []).
  - destruct (spec_cleaned_lines (file_lines text)) as [|t ls].
    + split; reflexivity.
    + split; [|discriminate]. cbn [map concat]. unfold terminate.
      destruct t; discriminate.
  - rewrite spec_cleaned_lines_nil. split; apply Forall_impl; intros l Hl.
    + exact (proj2 (nothing_to_keep_stripped l) (proj1 (filterLine_None l) Hl)).
    + exact (proj2 (filterLine_None l) (proj1 (nothing_to_keep_stripped l) Hl)).
Qed.

Lemma stripped_line_terminate (t : str) :
  stripped_line (terminate t) = stripped_line t.
Proof.
  unfold stripped_line, terminate.
  rewrite !cleaned_line_filter, filter_app. cbn [filter].
  rewrite whitelisted_LF. now apply strip_snoc_space.
Qed.

Lemma filterLine_terminate (l t : str) :
  filterLine l = Some t -> filterLine (terminate t) = Some t.
Proof.
  intro H. apply filterLine_Some in H. destruct H as [<- Hne].
  apply filterLine_Some. split; [|exact Hne].
  rewrite stripped_line_terminate. apply stripped_line_idem.
Qed.

Lemma spec_cleaned_lines_terminate (ls : list str) :
  Forall (fun t => filterLine (terminate t) = Some t) ls ->
  spec_cleaned_lines (map terminate ls) = ls.
Proof.
  unfold spec_cleaned_lines. induction 1 as [|t ls Ht _ IH]; [reflexivity|].
  cbn [map skip_absent]. now rewrite Ht, IH.
Qed.

Lemma output_lines (text : str) :
  file_lines (process_lines (file_lines text) [])
  = map terminate (spec_cleaned_lines (file_lines text)).
Proof.
  pose proof (cleaned_file_lines text) as Hls.
  rewrite process_lines_app. cbn [app]. unfold file_lines at 1.
  rewrite universal_newlines_id.
  - apply split_keepends_terminated_all.
    eapply Forall_impl; [|exact Hls]. cbn. intros t H. apply H.
  - intro H. apply in_concat in H. destruct H as (x & Hx & Hc).
    apply in_map_iff in Hx. destruct Hx as (t & <- & Ht).
    rewrite Forall_forall in Hls. destruct (Hls t Ht) as (_ & _ & Hcr).
    apply in_app_or in Hc. destruct Hc as [Hc|[Hc|[]]];
      [now apply Hcr | discriminate].
Qed.

(** X10: cleaning the output file again gives the same file. *)
Theorem cleaning_twice (os os' : os_path) (path path' text : str) :
  snd (clean_text_file os' path' (snd (clean_text_file os path text)))
  = snd (clean_text_file os path text).
Proof.
  unfold clean_text_file. cbn [snd].
  rewrite (process_lines_app (file_lines (process_lines _ _))).
  rewrite output_lines, spec_cleaned_lines_terminate.
  - now rewrite process_lines_app.
  - apply Forall_forall. intros t Ht.
    apply spec_cleaned_lines_In in Ht. destruct Ht as (l & _ & Hf).
    now apply filterLine_terminate with l.
Qed.

(** X11: after a [\n] the lines are cleaned on their own: the output for
    a text is the output for its part up to a [\n] followed by the output
    for the rest. *)
Theorem cleaning_by_parts (os : os_path) (path a b : str) :
  snd (clean_text_file os path (a ++ [LF] ++ b))
  = snd (clean_text_file os path (a ++ [LF]))
    ++ snd (clean_text_file os path b).
Proof.
  unfold clean_text_file. cbn [snd app].
  now rewrite file_lines_at_LF, process_lines_concat.
Qed.

(** X12: a text whose lines all end in [\r\n], or all in [\r], is
    cleaned to the same output as the same lines ending in [\n]. *)
Theorem cleaning_any_convention (os : os_path) (path term : str)
    (bodies : list str) :
  term = [LF] \/ term = [CR; LF] \/ term = [CR] ->
  Forall (fun b => ~ In LF b /\ ~ In CR b) bodies ->
  snd (clean_text_file os path (concat (map (fun b => b ++ term) bodies)))
  = snd (clean_text_file os path (concat (map (fun b => b ++ [LF]) bodies))).
Proof.
  intros Hterm Hb. unfold clean_text_file. cbn [snd].
  rewrite (same_lines_any_convention term bodies Hterm Hb).
  now rewrite (same_lines_any_convention [LF] bodies (or_introl eq_refl) Hb).
Qed.

Lemma cleaning_any_convention_witness :
  ([CR] = [LF] \/ [CR] = [CR; LF] \/ [CR] = [CR])
  /\ Forall (fun b => ~ In LF b /\ ~ In CR b)
       [str_of "one"; []; str_of " two#"]
  /\ snd (clean_text_file ntpath (str_of "in.txt")
            (concat (map (fun b => b ++ [CR])
                       [str_of "one"; []; str_of " two#"])))
     = snd (clean_text_file ntpath (str_of "in.txt")
              (concat (map (fun b => b ++ [LF])
                         [str_of "one"; []; str_of " two#"]))).
Proof.
  assert (H1 : [CR] = [LF] \/ [CR] = [CR; LF] \/ [CR] = [CR])
    by (right; right; reflexivity).
  assert (H2 : Forall (fun b => ~ In LF b /\ ~ In CR b)
                 [str_of "one"; []; str_of " two#"]).
  { repeat (apply Forall_cons;
            [split; cbn; intro H; decompose [or] H;
             discriminate || assumption|]).
    apply Forall_nil. }
  split; [exact H1|]. split; [exact H2|].
  exact (cleaning_any_convention ntpath _ _ _ H1 H2).
Defined.

Lemma stripped_line_length (s : str) :
  (length (stripped_line s) <= length s)%nat.
Proof.
  unfold stripped_line.
  destruct (strip_parts (cleaned_line s)) as (pre & post & Hs & _).
  assert (Hl : (length (cleaned_line s) <= length s)%nat).
  { rewrite cleaned_line_filter. apply filter_length_le. }
  apply (f_equal (@length _)) in Hs. rewrite !length_app in Hs. lia.
Qed.

Lemma process_one (l : str) :
  process_lines [l] []
  = match filterLine l with Some t => terminate t | None => [] end.
Proof.
  unfold process_lines, loop_body, write, terminate. cbn [fold_left].
  now destruct (filterLine l).
Qed.

Lemma process_one_length (l : str) :
  (length (process_lines [l] []) <= length l + 1)%nat.
Proof.
  rewrite process_one. destruct (filterLine l) as [t|] eqn:E; cbn [length];
    [|lia].
  apply filterLine_Some in E. destruct E as [<- _].
  unfold terminate. rewrite length_app. cbn [length].
  pose proof (stripped_line_length l). lia.
Qed.

Lemma process_terminated_length (body : str) :
  (length (process_lines [terminate body] [])
   <= length (terminate body))%nat.
Proof.
  rewrite process_one.
  destruct (filterLine (terminate body)) as [t|] eqn:E; cbn [length]; [|lia].
  apply filterLine_Some in E. destruct E as [<- _].
  rewrite stripped_line_terminate. unfold terminate. rewrite !length_app.
  cbn [length]. pose proof (stripped_line_length body). lia.
Qed.

(** All the lines of a text end with [\n], but for the last one at
    most. *)
Lemma split_keepends_structure (s : str) :
  exists ls tail,
    split_keepends s = ls ++ tail
    /\ Forall (fun l => exists body, l = terminate body) ls
    /\ (length tail <= 1)%nat.
Proof.
  induction s as [|c rest (ls & tail & Hs & Hls & Htail)].
  - exists [], []. repeat split; [constructor | cbn; lia].
  - cbn [split_keepends]. destruct (N.eqb_spec c LF) as [->|_].
    + exists ([LF] :: ls), tail. rewrite Hs. repeat split; [|exact Htail].
      constructor; [now exists [] | exact Hls].
    + rewrite Hs. destruct ls as [|l ls].
      * destruct tail as [|l' tail]; cbn [app].
        -- exists [], [[c]]. repeat split; [constructor | cbn; lia].
        -- exists [], ((c :: l') :: tail). repeat split;
             [constructor | exact Htail].
      * inversion Hls as [|? ? (body & ->) Hls']; subst. cbn [app].
        exists (terminate (c :: body) :: ls), tail.
        repeat split; [|exact Htail].
        constructor; [now exists (c :: body) | exact Hls'].
Qed.

Lemma process_terminated_lines (ls : list str) :
  Forall (fun l => exists body, l = terminate body) ls ->
  (length (process_lines ls []) <= length (concat ls))%nat.
Proof.
  induction 1 as [|l ls (body & ->) _ IH]; [cbn; lia|].
  change (terminate body :: ls) with ([terminate body] ++ ls).
  rewrite process_lines_concat, length_app. cbn [app concat].
  rewrite length_app. pose proof (process_terminated_length body). lia.
Qed.

(** X13: the output file has no more lines than the input, and at most
    one character more than the input (the [\n] given to a last line
    that had none). *)
Theorem output_size (os : os_path) (path text : str) :
  (length (file_lines (snd (clean_text_file os path text)))
   <= total_lines text)%nat
  /\ (length (snd (clean_text_file os path text)) <= length text + 1)%nat.
Proof.
  unfold clean_text_file, total_lines. cbn [snd]. split.
  - rewrite output_lines, length_map. unfold spec_cleaned_lines.
    induction (file_lines text) as [|l ls IH]; [cbn; lia|].
    cbn [map skip_absent length]. destruct (filterLine l); cbn [length]; lia.
  - pose proof (universal_newlines_length text) as Hu.
    rewrite <- (split_keepends_concat (universal_newlines text)) in Hu.
    fold (file_lines text) in Hu. unfold file_lines in *.
    destruct (split_keepends_structure (universal_newlines text))
      as (ls & tail & Hs & Hls & Htail).
    rewrite Hs in *. clear Hs.
    rewrite process_lines_concat, length_app.
    rewrite concat_app, length_app in Hu.
    pose proof (process_terminated_lines ls Hls) as H1.
    destruct tail as [|l' [|? ?]]; [cbn in *; lia | | cbn in Htail; lia].
    pose proof (process_one_length l') as H2.
    cbn [concat] in Hu. rewrite app_nil_r in Hu. lia.
Qed.

(** ** Scenarios *)

Example scenario_A :
  filterLine (str_of "Hello, " ++ [0x4E16; 0x754C] ++ str_of "! 123 @@@")
  = Some (str_of "Hello, " ++ [0x4E16; 0x754C] ++ str_of "! 123").
Proof. vm_compute. reflexivity. Qed.

Example scenario_B : filterLine [0x20; 0x20; 0x20; 0x09; 0x20; 0x20] = None.
Proof. reflexivity. Qed.

Example scenario_C :
  filterLine (str_of "emoji " ++ [0x1F600] ++ str_of " test")
  = Some (str_of "emoji  test").
Proof. reflexivity. Qed.

Example scenario_D : forall os,
  output_file_path os (str_of "report.txt") = str_of "report_cleaned.txt"
  /\ output_file_path os (str_of "data") = str_of "data_cleaned"
  /\ output_file_path os (str_of ".bashrc") = str_of ".bashrc_cleaned"
  /\ output_file_path os (str_of "a.b/.c.d") = str_of "a.b/.c_cleaned.d"
  /\ output_file_path os (str_of "a.b/c") = str_of "a.b/c_cleaned".
Proof. destruct os; vm_compute; repeat split; reflexivity. Qed.

Example scenario_E :
  split_keepends
    (snd (clean_text_file posixpath (str_of "in.txt")
            (str_of "one" ++ [LF] ++ str_of "  " ++ [CR; LF] ++ str_of "two"
             ++ [CR] ++ [0x09; LF] ++ str_of "three")))
  = [str_of "one" ++ [LF]; str_of "two" ++ [LF]; str_of "three" ++ [LF]].
Proof. reflexivity. Qed.

Example lines_mixed :
  file_lines (str_of "ab" ++ [CR; LF] ++ str_of "c" ++ [CR] ++ [CR] ++ str_of "d" ++ [LF] ++ str_of "e")
  = [str_of "ab" ++ [LF]; str_of "c" ++ [LF]; [LF]; str_of "d" ++ [LF]; str_of "e"].
Proof. vm_compute. reflexivity. Qed.

(** Characters that [\s] takes for whitespace although they are control
    characters, and code points that are no scalar values. *)
Example unusual_code_points :
  filterLine [0x1C; 0xD800; 0x61; 0xDFFF; 0x110000; 0x00; 0x1F] = Some [0x61]
  /\ cleaned_line [0x1C; 0x7F; 0x1F] = [0x1C; 0x1F].
Proof. split; reflexivity. Qed.
